(** * attiny10_garland: the pattern interpreter and its fade engine

    A shallow embedding of [src/main.cpp] (an ATtiny10 firmware that plays
    brightness patterns on one LED through PWM) and the properties of its
    specification that can be settled on it.

    Integers are modelled as [Z] with the wrap-around of the C types written
    out ([uint8], [uint16], [int16]; on AVR [int] is 16 bits wide).  The
    hardware the program touches is a record [machine] (the volatile tick
    counter and the PWM compare register); the code runs in a small
    state/error/writer monad [M] whose output is the list of observable
    events in chronological order.  Loops take a [fuel] bound; running out of
    it is the result [OutOfFuel], an access outside an array is
    [OutOfBounds].

    Time is counted in ticks.  The timer overflow is the only interrupt the
    firmware enables and the main thread spends its time in [sleep_cpu()], so
    the handler is taken to run once per [sleep_cpu()] and never in between:
    the code between two sleeps takes no tick.  [setup()] (clock, power and
    PWM registers) is not modelled. *)

From Stdlib Require Import ZArith List Bool Lia Relations Sorted.
Import ListNotations.

Local Open Scope Z_scope.

(** ** Machine integers *)

Definition uint8 (z : Z) : Z := z mod 256.
Definition uint16 (z : Z) : Z := z mod 65536.
Definition int16 (z : Z) : Z := (z + 32768) mod 65536 - 32768.

(** ** Results, events, the machine and the monad *)

Inductive result (A : Type) : Type :=
| Ok (a : A)
| OutOfBounds
| OutOfFuel.

Arguments Ok {A} a.
Arguments OutOfBounds {A}.
Arguments OutOfFuel {A}.

(** What the outside world can observe: a run of the timer overflow handler,
    a write of the PWM compare register, a call of [sleep] with its argument,
    and a read of [patterns[i][j]]. *)
Inductive event : Type :=
| EvTick
| EvPwm (v : Z)
| EvSleep (n : Z)
| EvRead (i j : Z).

Record machine : Type := mkMachine {
  ticks : Z;   (* volatile uint16_t ticks *)
  OCR0A : Z    (* PWM compare register *)
}.

Definition M (A : Type) : Type := machine -> result (A * machine * list event).

Definition ret {A} (a : A) : M A := fun m => Ok (a, m, []).

(** The events of a first computation come before those of its continuation. *)
Definition prepend {A} (e1 : list event) (r : result (A * machine * list event))
  : result (A * machine * list event) :=
  match r with
  | Ok (b, m2, e2) => Ok (b, m2, e1 ++ e2)
  | OutOfBounds => OutOfBounds
  | OutOfFuel => OutOfFuel
  end.

Definition bind {A B} (c : M A) (f : A -> M B) : M B :=
  fun m =>
    match c m with
    | Ok (a, m1, e1) => prepend e1 (f a m1)
    | OutOfBounds => OutOfBounds
    | OutOfFuel => OutOfFuel
    end.

Notation "x <- c1 ;; c2" := (bind c1 (fun x => c2))
  (at level 61, c1 at next level, right associativity).
Notation "c1 ;; c2" := (bind c1 (fun _ => c2))
  (at level 61, right associativity).

Definition lift {A} (r : result A) : M A :=
  fun m =>
    match r with
    | Ok a => Ok (a, m, [])
    | OutOfBounds => OutOfBounds
    | OutOfFuel => OutOfFuel
    end.

Definition emit (e : event) : M unit := fun m => Ok (tt, m, [e]).
Definition read_ticks : M Z := fun m => Ok (ticks m, m, []).
Definition write_ticks (t : Z) : M unit :=
  fun m => Ok (tt, mkMachine t (OCR0A m), []).
Definition write_OCR0A (v : Z) : M unit :=
  fun m => Ok (tt, mkMachine (ticks m) v, []).

(** ** Build-time tables (lines 14-32) *)

Definition patterns : list (list Z) :=
  [ [500; -500; 500; -500; 1; 50; -1; -50; 1; 50; -1; -50; 1; 50; -3000; -2000; 0];
    [1; 500; -1; -500; 0];
    [4000; -1; -2000; 0];
    [1; 250; -1; -250; 0];
    [500; -500; -3000; 0];
    [1; 50; -1; -50; 0];
    [1; -4000; -2000; 0];
    [2000; -1; -100; 1; 100; -1; -100; 1; 100; -1; -100; 1; 100; -1; -100; 1; -2000; -3000; 0];
    [1000; -1000; 0] ].

Definition PATTERN_DURATION : Z := 30000.

Definition accelerationPoints : list Z := [0; 30; 60; 80; 10; 255].

(** An array access: undefined behaviour outside the array is [OutOfBounds]. *)
Definition lookup {A} (tbl : list A) (idx : Z) : result A :=
  if idx <? 0 then OutOfBounds
  else match nth_error tbl (Z.to_nat idx) with
       | Some v => Ok v
       | None => OutOfBounds
       end.

(** ** The tick handler and the two hardware helpers (lines 37-62) *)

(** [ISR(TIM0_OVF_vect)]: [++ticks] on a 16-bit counter. *)
Definition isr : M unit :=
  emit EvTick ;;
  t <- read_ticks ;;
  write_ticks (uint16 (t + 1)).

(** The [do ... while (end > ticks)] of [sleep].  The timer overflow is the
    only interrupt the firmware enables, so [sleep_cpu()] returns after one
    run of the handler. *)
Fixpoint sleep_loop (fuel : nat) (end_ : Z) : M unit :=
  match fuel with
  | O => fun _ => OutOfFuel
  | S fuel' =>
      isr ;;
      t <- read_ticks ;;
      if end_ >? t then sleep_loop fuel' end_ else ret tt
  end.

(** [void sleep(const uint16_t & delay)]: the argument is converted to
    [uint16_t] at the call. *)
Definition sleep (fuel : nat) (delay : Z) : M unit :=
  let delay := uint16 delay in
  emit (EvSleep delay) ;;
  t <- read_ticks ;;
  sleep_loop fuel (uint16 (t + delay)).

(** [static void setPwmDutyCycle(const uint16_t & value)]. *)
Definition setPwmDutyCycle (value : Z) : M unit :=
  let value := uint16 value in
  emit (EvPwm value) ;;
  write_OCR0A value.

(** ** The fade (lines 147-204) *)

(** The variables of the [for] loop of line 166. *)
Record fade_st : Type := mkFade {
  k : Z;           (* uint8_t k *)
  step : Z;        (* uint8_t step *)
  remainder : Z    (* uint8_t remainder *)
}.

(** The index of [accelerationPoints] an iteration reads (lines 175, 185). *)
Definition accel_index (sign : bool) (step : Z) : Z :=
  if sign then step else step - 1.

(** Lines 168-189: the brightness of this iteration and the new step. *)
Definition fade_value (tbl : list Z) (sign : bool) (k step : Z)
  : result (Z * Z) :=
  match lookup tbl (accel_index sign step) with
  | Ok point =>
      if sign then
        let value := uint8 (k - 1) in
        Ok (value, if value >=? point then uint8 (step + 1) else step)
      else
        let value := uint8 (128 - k) in
        Ok (value, if value <=? point then uint8 (step - 1) else step)
  | OutOfBounds => OutOfBounds
  | OutOfFuel => OutOfFuel
  end.

(** Lines 195-203: the sleep of this iteration and the new remainder. *)
Definition fade_sleep (fuel : nat) (delay remainder : Z) : M Z :=
  if remainder =? 0 then
    sleep fuel (Z.quot delay 64) ;; ret remainder
  else
    sleep fuel (Z.quot delay 64 + 1) ;; ret (uint8 (remainder - 1)).

(** One iteration of the loop of line 166, with its [k += step]. *)
Definition fade_body (fuel : nat) (tbl : list Z) (sign : bool) (delay : Z)
           (st : fade_st) : M fade_st :=
  vs <- lift (fade_value tbl sign (k st) (step st)) ;;
  setPwmDutyCycle (fst vs) ;;
  r <- fade_sleep fuel delay (remainder st) ;;
  ret (mkFade (uint8 (k st + snd vs)) (snd vs) r).

Fixpoint fade_loop (fuel : nat) (n : nat) (tbl : list Z) (sign : bool)
         (delay : Z) (st : fade_st) : M fade_st :=
  if k st <? 128 then
    match n with
    | O => fun _ => OutOfFuel
    | S n' =>
        st' <- fade_body fuel tbl sign delay st ;;
        fade_loop fuel n' tbl sign delay st'
    end
  else ret st.

(** Lines 149-163: the loop variables on entry. *)
Definition fade_init (tbl : list Z) (sign : bool) (delay : Z) : fade_st :=
  mkFade 1
         (if sign then 1 else uint8 (Z.of_nat (length tbl) - 2))
         (uint8 (Z.rem delay 64)).

Definition fade (fuel : nat) (tbl : list Z) (sign : bool) (delay : Z)
  : M unit :=
  fade_loop fuel fuel tbl sign delay (fade_init tbl sign delay) ;; ret tt.

(** ** The interpreter (lines 100-213) *)

Definition read_pattern (i j : Z) : M Z :=
  emit (EvRead i j) ;;
  lift (match lookup patterns i with
        | Ok p => lookup p j
        | OutOfBounds => OutOfBounds
        | OutOfFuel => OutOfFuel
        end).

(** Lines 121-208: one instruction. *)
Definition exec_instr (fuel : nat) (raw : Z) (state : bool) : M bool :=
  let sign := negb (raw <? 0) in
  let delay := if raw <? 0 then int16 (- raw) else raw in
  if Bool.eqb state sign then
    sleep fuel delay ;; ret state
  else
    (if delay <? 128 then setPwmDutyCycle (if sign then 127 else 0)
     else fade fuel accelerationPoints sign delay) ;;
    ret sign.

(** Line 119: one pass over the instructions of pattern [i], from [j]. *)
Fixpoint pass_loop (fuel : nat) (n : nat) (i j : Z) (state : bool) : M bool :=
  match n with
  | O => fun _ => OutOfFuel
  | S n' =>
      c <- read_pattern i j ;;
      if c =? 0 then ret state
      else
        raw <- read_pattern i j ;;
        state' <- exec_instr fuel raw state ;;
        pass_loop fuel n' i (uint8 (j + 1)) state'
  end.

Definition pass (fuel : nat) (i : Z) (state : bool) : M bool :=
  pass_loop fuel fuel i 0 state.

(** Line 113: [ticks = 0] on entering a pattern. *)
Definition enter_pattern : M unit := write_ticks 0.

(** Lines 110 and 107: the pattern after [i]; when the [for] loop is over the
    [while (true)] starts it again at 0. *)
Definition next_i (i : Z) : Z :=
  let i' := uint8 (i + 1) in
  if i' <? Z.of_nat (length patterns) then i' else 0.

(** The local variables of [main] between two passes: [i] and [state]. *)
Definition control : Type := (Z * bool)%type.

(** Lines 102-113: from reset to the first pass. *)
Definition main_start : M control :=
  enter_pattern ;; ret (0, false).

(** One iteration of the [do ... while (ticks < PATTERN_DURATION)] of lines
    116-210: a complete pass, then the loop test; when the test fails, the
    code up to the next pass (the next [i] and its [ticks = 0]). *)
Definition main_step (fuel : nat) (c : control) : M control :=
  state' <- pass fuel (fst c) (snd c) ;;
  t <- read_ticks ;;
  if t <? PATTERN_DURATION then ret (fst c, state')
  else enter_pattern ;; ret (next_i (fst c), state').

Fixpoint main_steps (fuel : nat) (n : nat) (c : control) : M control :=
  match n with
  | O => ret c
  | S n' => c' <- main_step fuel c ;; main_steps fuel n' c'
  end.

(** ** Views of a list of events *)

Definition pwm_writes (evs : list event) : list Z :=
  flat_map (fun e => match e with EvPwm v => [v] | _ => [] end) evs.

Definition sleeps (evs : list event) : list Z :=
  flat_map (fun e => match e with EvSleep n => [n] | _ => [] end) evs.

Definition reads (evs : list event) : list (Z * Z) :=
  flat_map (fun e => match e with EvRead i j => [(i, j)] | _ => [] end) evs.

Definition count_ticks (evs : list event) : Z :=
  Z.of_nat (length (filter (fun e => match e with EvTick => true | _ => false end) evs)).

Definition sum (l : list Z) : Z := fold_right Z.add 0 l.

(** The fuel that is enough for every loop of the program: [sleep] ends
    within one turn of the 16-bit counter. *)
Definition enough : nat := Z.to_nat 65536.

(** * Definitions for the statements and their proofs *)

(** [le_M c c']: whenever [c] returns, [c'] returns the same. *)
Definition le_M {A} (c c' : M A) : Prop :=
  forall m r, c m = Ok r -> c' m = Ok r.

(** [keeps R c]: whenever [c] returns, [R] relates the machine before, the
    machine after and the events of [c]. *)
Definition keeps {A} (R : machine -> machine -> list event -> Prop) (c : M A)
  : Prop :=
  forall m a m' e, c m = Ok (a, m', e) -> R m m' e.

(** The tick counter moves only with the handler. *)
Definition ticks_follow (m m' : machine) (e : list event) : Prop :=
  uint16 (ticks m') = uint16 (ticks m + count_ticks e).

(** The compare register holds the last brightness written. *)
Definition pwm_follows (m m' : machine) (e : list event) : Prop :=
  OCR0A m' = last (pwm_writes e) (OCR0A m).

(** No instruction is read. *)
Definition reads_nothing (m m' : machine) (e : list event) : Prop :=
  reads e = [].

(** The brightness levels of the loop of line 166 with its last [k] and
    [step]: what [fade_loop] computes without the machine. *)
Fixpoint fade_values (n : nat) (tbl : list Z) (sign : bool) (k step : Z)
  : result (list Z * (Z * Z)) :=
  if k <? 128 then
    match n with
    | O => OutOfFuel
    | S n' =>
        match fade_value tbl sign k step with
        | Ok vs =>
            match fade_values n' tbl sign (uint8 (k + snd vs)) (snd vs) with
            | Ok (l, ks) => Ok (fst vs :: l, ks)
            | OutOfBounds => OutOfBounds
            | OutOfFuel => OutOfFuel
            end
        | OutOfBounds => OutOfBounds
        | OutOfFuel => OutOfFuel
        end
    end
  else Ok ([], (k, step)).

(** The arguments of the [sleep] calls of [count] iterations (lines 195-203). *)
Fixpoint fade_delays (delay remainder : Z) (count : nat) : list Z :=
  match count with
  | O => []
  | S c =>
      if remainder =? 0 then
        uint16 (Z.quot delay 64) :: fade_delays delay remainder c
      else
        uint16 (Z.quot delay 64 + 1)
          :: fade_delays delay (uint8 (remainder - 1)) c
  end.

(** The brightness levels a brightening fade writes on the shipped table. *)
Definition brightening_levels : list Z :=
  [0; 1; 2; 3; 4; 5; 6; 7; 8; 9; 10; 11; 12; 13; 14; 15; 16; 17; 18; 19; 20;
   21; 22; 23; 24; 25; 26; 27; 28; 29; 30; 32; 34; 36; 38; 40; 42; 44; 46;
   48; 50; 52; 54; 56; 58; 60; 63; 66; 69; 72; 75; 78; 81; 85; 90; 95; 100;
   105; 110; 115; 120; 125].

(** The brightness levels a dimming fade writes on the shipped table. *)
Definition dimming_levels : list Z :=
  [127; 123; 119; 115; 111; 107; 103; 99; 95; 91; 87; 83; 79; 76; 73; 70; 67;
   64; 61; 58; 56; 54; 52; 50; 48; 46; 44; 42; 40; 38; 36; 34; 32; 30; 29;
   28; 27; 26; 25; 24; 23; 22; 21; 20; 19; 18; 17; 16; 15; 14; 13; 12; 11;
   10; 9; 8; 7; 6; 5; 4; 3; 2; 1].

Definition levels (sign : bool) : list Z :=
  if sign then brightening_levels else dimming_levels.

(** One iteration of the loop of line 166 is run: [k < 128] held and the
    body returned. *)
Definition fade_iter (fuel : nat) (tbl : list Z) (sign : bool) (d : Z)
           (x y : fade_st * machine) : Prop :=
  k (fst x) < 128 /\
  exists e, fade_body fuel tbl sign d (fst x) (snd x) = Ok (fst y, snd y, e).

(** The loop variables and the machine at the head of some iteration (or
    when the loop is left) of the fade started on machine [m0]. *)
Definition fade_reach (fuel : nat) (tbl : list Z) (sign : bool) (d : Z)
           (m0 : machine) (x : fade_st * machine) : Prop :=
  clos_refl_trans_1n _ (fade_iter fuel tbl sign d) (fade_init tbl sign d, m0) x.

(** Line 162: the number of interior thresholds. *)
Definition maxStep : Z := uint8 (Z.of_nat (length accelerationPoints) - 2).

(** The range of [step] in a fade of direction [sign]. *)
Definition step_range (sign : bool) (s : Z) : Prop :=
  1 <= s <= (if sign then maxStep + 1 else maxStep).

(** [n] iterations of the loop, as a function. *)
Fixpoint fade_iterate (fuel : nat) (n : nat) (tbl : list Z) (sign : bool)
         (d : Z) (x : fade_st * machine) : option (fade_st * machine) :=
  match n with
  | O => Some x
  | S n' =>
      if k (fst x) <? 128 then
        match fade_body fuel tbl sign d (fst x) (snd x) with
        | Ok (st', m', _) => fade_iterate fuel n' tbl sign d (st', m')
        | _ => None
        end
      else None
  end.

(** The index of the first 0 of a pattern. *)
Fixpoint sentinel (p : list Z) : Z :=
  match p with
  | [] => 0
  | x :: rest => if x =? 0 then 0 else 1 + sentinel rest
  end.

(** The reads of line 119 and line 121 from index [j] on, [rest] being the
    pattern from [j]: the loop test reads every instruction, line 121 reads
    it again unless it is 0. *)
Fixpoint pass_reads (i j : Z) (rest : list Z) : list (Z * Z) :=
  match rest with
  | [] => []
  | x :: rest' =>
      if x =? 0 then [(i, j)]
      else (i, j) :: (i, j) :: pass_reads i (j + 1) rest'
  end.

(** [n] more passes stay on pattern [i]: at each of the [n + 1] pass
    boundaries from [(c, m)] on the counter is the number [fired] of ticks
    since the pattern was entered, and it is below [PATTERN_DURATION]. *)
Fixpoint stays (fuel : nat) (n : nat) (i : Z) (c : control) (m : machine)
         (fired : Z) : bool :=
  (fst c =? i) && (ticks m =? fired) && (fired <? PATTERN_DURATION) &&
  match n with
  | O => true
  | S n' =>
      match main_step fuel c m with
      | Ok (c', m', e) => stays fuel n' i c' m' (fired + count_ticks e)
      | _ => false
      end
  end.

(** After [n + 1] passes the interpreter is on the pattern after [i], the
    counter is 0 again, at least [PATTERN_DURATION] ticks have fired, and
    only pattern [i] was read, its sentinel last. *)
Definition advances (fuel : nat) (n : nat) (i : Z) (c : control) (m : machine)
  : bool :=
  match main_steps fuel (S n) c m, lookup patterns i with
  | Ok (c', m', e), Ok p =>
      (fst c' =? (i + 1) mod Z.of_nat (length patterns)) &&
      (PATTERN_DURATION <=? count_ticks e) && (ticks m' =? 0) &&
      forallb (fun r => fst r =? i) (reads e) &&
      (snd (last (reads e) (i, -1)) =? sentinel p)
  | _, _ => false
  end.

(** The number of passes after which the interpreter leaves the pattern. *)
Fixpoint passes_until_switch (fuel : nat) (bound : nat) (c : control)
         (m : machine) : option nat :=
  match bound with
  | O => None
  | S b =>
      match main_step fuel c m with
      | Ok (c', m', _) =>
          if fst c' =? fst c then
            option_map S (passes_until_switch fuel b c' m')
          else Some O
      | _ => None
      end
  end.

(** The ticks the [sleep] calls of [evs] ask for; a [sleep] asked for none
    still waits for one (the [do ... while] of lines 47-54). *)
Definition asked_ticks (evs : list event) : Z :=
  sum (map (fun n => Z.max n 1) (sleeps evs)).

(** While the counter does not wrap, it advances by the ticks asked for, and
    these are the ticks that fire. *)
Definition ticks_as_asked (m m' : machine) (e : list event) : Prop :=
  0 <= ticks m -> ticks m + asked_ticks e < 65536 ->
  ticks m' = ticks m + asked_ticks e /\ count_ticks e = asked_ticks e.

(** Every brightness written is one of the 128 levels of the PWM. *)
Definition writes_levels (m m' : machine) (e : list event) : Prop :=
  Forall (fun v => 0 <= v <= 127) (pwm_writes e).

(** Nothing is written to the PWM and nothing is slept. *)
Definition only_ticks (m m' : machine) (e : list event) : Prop :=
  pwm_writes e = [] /\ sleeps e = [].

(** The logical state after the instructions of [rest] up to its first 0
    (line 207: every instruction leaves [state] at its sign). *)
Fixpoint end_state (state : bool) (rest : list Z) : bool :=
  match rest with
  | [] => state
  | x :: rest' => if x =? 0 then state else end_state (negb (x <? 0)) rest'
  end.

(** The events of one pass over pattern 5, [{1, 50, -1, -50, 0}], from the
    logical state off. *)
Definition pass5_events : list event :=
  [EvRead 5 0; EvRead 5 0; EvPwm 127; EvRead 5 1; EvRead 5 1; EvSleep 50]
    ++ repeat EvTick 50
    ++ [EvRead 5 2; EvRead 5 2; EvPwm 0; EvRead 5 3; EvRead 5 3; EvSleep 50]
    ++ repeat EvTick 50 ++ [EvRead 5 4].

(** The events of a dimming fade of 130 ticks on the shipped table. *)
Definition dimming130_events : list event :=
  Eval vm_compute in
    match fade (Z.to_nat 65536) accelerationPoints false 130
               (mkMachine 0 127) with
    | Ok (_, _, e) => e
    | _ => []
    end.

(** The arguments of the [sleep] calls of one instruction in logical state
    [state] (lines 121-208), the fade being on the shipped table. *)
Definition instr_sleeps (raw : Z) (state : bool) : list Z :=
  let sign := negb (raw <? 0) in
  let delay := if raw <? 0 then int16 (- raw) else raw in
  if Bool.eqb state sign then [uint16 delay]
  else if delay <? 128 then []
       else fade_delays delay (uint8 (Z.rem delay 64)) (length (levels sign)).

(** The arguments of the [sleep] calls of a pass over the instructions of
    [rest] up to its first 0, from the logical state [state]. *)
Fixpoint pass_sleeps (state : bool) (rest : list Z) : list Z :=
  match rest with
  | [] => []
  | x :: rest' =>
      if x =? 0 then []
      else instr_sleeps x state ++ pass_sleeps (negb (x <? 0)) rest'
  end.

(** * Properties *)

(** ** The monad *)

Lemma bind_run {A B} (c : M A) (f : A -> M B) m {a m1 e1} :
  c m = Ok (a, m1, e1) -> bind c f m = prepend e1 (f a m1).
Proof. intros H. unfold bind. rewrite H. reflexivity. Qed.

Lemma bind_Ok {A B} (c : M A) (f : A -> M B) m a m1 e1 b m2 e2 :
  c m = Ok (a, m1, e1) -> f a m1 = Ok (b, m2, e2) ->
  bind c f m = Ok (b, m2, e1 ++ e2).
Proof. intros H1 H2. rewrite (bind_run c f m H1), H2. reflexivity. Qed.

Lemma bind_inv {A B} (c : M A) (f : A -> M B) m b m2 e :
  bind c f m = Ok (b, m2, e) ->
  exists a m1 e1 e2,
    c m = Ok (a, m1, e1) /\ f a m1 = Ok (b, m2, e2) /\ e = e1 ++ e2.
Proof.
  unfold bind. destruct (c m) as [[[a m1] e1]| |]; try discriminate.
  destruct (f a m1) as [[[b' m2'] e2]| |] eqn:E; try discriminate.
  cbn [prepend]. intros H. inversion H; subst. exists a, m1, e1, e2. auto.
Qed.

Lemma le_M_refl {A} (c : M A) : le_M c c.
Proof. intros m r H. exact H. Qed.

Lemma le_M_bind {A B} (c c' : M A) (f f' : A -> M B) :
  le_M c c' -> (forall a, le_M (f a) (f' a)) -> le_M (bind c f) (bind c' f').
Proof.
  intros Hc Hf m [[b m2] e] H.
  apply bind_inv in H. destruct H as (a & m1 & e1 & e2 & H1 & H2 & ->).
  eapply bind_Ok; [apply Hc, H1 | apply Hf, H2].
Qed.

(** ** More fuel changes no result *)

Lemma sleep_loop_mono {f f'} e :
  (f <= f')%nat -> le_M (sleep_loop f e) (sleep_loop f' e).
Proof.
  revert f'. induction f as [|f IH]; intros f' Hle.
  - intros m r H. discriminate.
  - destruct f' as [|f']; [lia|]. cbn [sleep_loop].
    apply le_M_bind; [apply le_M_refl|]. intros _.
    apply le_M_bind; [apply le_M_refl|]. intros t.
    destruct (e >? t); [apply IH; lia | apply le_M_refl].
Qed.

Lemma sleep_mono {f f'} d :
  (f <= f')%nat -> le_M (sleep f d) (sleep f' d).
Proof.
  intros Hle. unfold sleep.
  apply le_M_bind; [apply le_M_refl|]. intros _.
  apply le_M_bind; [apply le_M_refl|]. intros t.
  apply sleep_loop_mono, Hle.
Qed.

Lemma fade_sleep_mono f f' d r :
  (f <= f')%nat -> le_M (fade_sleep f d r) (fade_sleep f' d r).
Proof.
  intros Hle. unfold fade_sleep.
  destruct (r =? 0); (apply le_M_bind; [apply sleep_mono, Hle|]);
    intros _; apply le_M_refl.
Qed.

Lemma fade_body_mono f f' tbl sign d st :
  (f <= f')%nat ->
  le_M (fade_body f tbl sign d st) (fade_body f' tbl sign d st).
Proof.
  intros Hle. unfold fade_body.
  apply le_M_bind; [apply le_M_refl|]. intros vs.
  apply le_M_bind; [apply le_M_refl|]. intros _.
  apply le_M_bind; [apply fade_sleep_mono, Hle|]. intros r.
  apply le_M_refl.
Qed.

Lemma fade_loop_mono {f f' n n'} tbl sign d st :
  (f <= f')%nat -> (n <= n')%nat ->
  le_M (fade_loop f n tbl sign d st) (fade_loop f' n' tbl sign d st).
Proof.
  intros Hf. revert n' st. induction n as [|n IH]; intros n' st Hn.
  - destruct n'; cbn [fade_loop]; destruct (k st <? 128);
      try apply le_M_refl; intros m r H; discriminate.
  - destruct n' as [|n']; [lia|]. cbn [fade_loop].
    destruct (k st <? 128); [|apply le_M_refl].
    apply le_M_bind; [apply fade_body_mono, Hf|]. intros st'.
    apply IH. lia.
Qed.

Lemma fade_mono f f' tbl sign d :
  (f <= f')%nat -> le_M (fade f tbl sign d) (fade f' tbl sign d).
Proof.
  intros Hle. unfold fade.
  apply le_M_bind; [apply fade_loop_mono; exact Hle|].
  intros _. apply le_M_refl.
Qed.

Lemma exec_instr_mono f f' raw state :
  (f <= f')%nat -> le_M (exec_instr f raw state) (exec_instr f' raw state).
Proof.
  intros Hle. unfold exec_instr.
  destruct (Bool.eqb state (negb (raw <? 0))).
  - apply le_M_bind; [apply sleep_mono, Hle|]. intros _. apply le_M_refl.
  - apply le_M_bind; [|intros _; apply le_M_refl].
    destruct (_ <? 128); [apply le_M_refl | apply fade_mono, Hle].
Qed.

Lemma pass_loop_mono f f' n n' i j state :
  (f <= f')%nat -> (n <= n')%nat ->
  le_M (pass_loop f n i j state) (pass_loop f' n' i j state).
Proof.
  intros Hf. revert n' j state.
  induction n as [|n IH]; intros n' j state Hn.
  - intros m r H. discriminate.
  - destruct n' as [|n']; [lia|]. cbn [pass_loop].
    apply le_M_bind; [apply le_M_refl|]. intros c.
    destruct (c =? 0); [apply le_M_refl|].
    apply le_M_bind; [apply le_M_refl|]. intros raw.
    apply le_M_bind; [apply exec_instr_mono, Hf|]. intros state'.
    apply IH. lia.
Qed.

Lemma main_step_mono f f' c :
  (f <= f')%nat -> le_M (main_step f c) (main_step f' c).
Proof.
  intros Hle. unfold main_step, pass.
  apply le_M_bind; [apply pass_loop_mono; exact Hle|].
  intros state'. apply le_M_refl.
Qed.

Lemma main_steps_mono f f' n c :
  (f <= f')%nat -> le_M (main_steps f n c) (main_steps f' n c).
Proof.
  intros Hle. revert c. induction n as [|n IH]; intros c; cbn [main_steps].
  - apply le_M_refl.
  - apply le_M_bind; [apply main_step_mono, Hle | exact IH].
Qed.

(** ** Relations every piece of the program keeps

    A relation [R m m' e] between the machine before, the machine after and
    the events in between, that holds of no event and composes, holds of
    every computation built from primitives that keep it. *)

Section Keeps.
Variable R : machine -> machine -> list event -> Prop.
Hypothesis R_nil : forall m, R m m [].
Hypothesis R_app :
  forall m m1 m2 e1 e2, R m m1 e1 -> R m1 m2 e2 -> R m m2 (e1 ++ e2).

Lemma keeps_ret {A} (a : A) : keeps R (ret a).
Proof. intros m a' m' e H. inversion H; subst. apply R_nil. Qed.

Lemma keeps_lift {A} (r : result A) : keeps R (lift r).
Proof.
  intros m a m' e H. destruct r; inversion H; subst. apply R_nil.
Qed.

Lemma keeps_read_ticks : keeps R read_ticks.
Proof. intros m a m' e H. inversion H; subst. apply R_nil. Qed.

Lemma keeps_bind {A B} (c : M A) (f : A -> M B) :
  keeps R c -> (forall a, keeps R (f a)) -> keeps R (bind c f).
Proof.
  intros Hc Hf m b m2 e H.
  apply bind_inv in H. destruct H as (a & m1 & e1 & e2 & H1 & H2 & ->).
  eapply R_app; [eapply Hc, H1 | eapply Hf, H2].
Qed.

Hypothesis R_isr : keeps R isr.
Hypothesis R_sleep_event : forall n, keeps R (emit (EvSleep n)).
Hypothesis R_pwm : forall v, keeps R (setPwmDutyCycle v).

Lemma keeps_sleep_loop fuel e : keeps R (sleep_loop fuel e).
Proof.
  induction fuel as [|fuel IH]; cbn [sleep_loop].
  - intros m a m' ev H. discriminate.
  - apply keeps_bind; [exact R_isr|]. intros _.
    apply keeps_bind; [exact keeps_read_ticks|]. intros t.
    destruct (e >? t); [exact IH | apply keeps_ret].
Qed.

Lemma keeps_sleep fuel d : keeps R (sleep fuel d).
Proof.
  unfold sleep. apply keeps_bind; [apply R_sleep_event|]. intros _.
  apply keeps_bind; [exact keeps_read_ticks|]. intros t.
  apply keeps_sleep_loop.
Qed.

Lemma keeps_fade_sleep fuel d r : keeps R (fade_sleep fuel d r).
Proof.
  unfold fade_sleep.
  destruct (r =? 0); (apply keeps_bind; [apply keeps_sleep|]);
    intros _; apply keeps_ret.
Qed.

Lemma keeps_fade_body fuel tbl sign d st :
  keeps R (fade_body fuel tbl sign d st).
Proof.
  unfold fade_body. apply keeps_bind; [apply keeps_lift|]. intros vs.
  apply keeps_bind; [apply R_pwm|]. intros _.
  apply keeps_bind; [apply keeps_fade_sleep|]. intros r. apply keeps_ret.
Qed.

Lemma keeps_fade_loop fuel n tbl sign d st :
  keeps R (fade_loop fuel n tbl sign d st).
Proof.
  revert st. induction n as [|n IH]; intros st; cbn [fade_loop];
    destruct (k st <? 128); try apply keeps_ret.
  - intros m a m' e H. discriminate.
  - apply keeps_bind; [apply keeps_fade_body | exact IH].
Qed.

Lemma keeps_fade fuel tbl sign d : keeps R (fade fuel tbl sign d).
Proof.
  unfold fade. apply keeps_bind; [apply keeps_fade_loop|].
  intros _. apply keeps_ret.
Qed.

Lemma keeps_exec_instr fuel raw state : keeps R (exec_instr fuel raw state).
Proof.
  unfold exec_instr. destruct (Bool.eqb state (negb (raw <? 0))).
  - apply keeps_bind; [apply keeps_sleep|]. intros _. apply keeps_ret.
  - apply keeps_bind; [|intros _; apply keeps_ret].
    destruct (_ <? 128); [apply R_pwm | apply keeps_fade].
Qed.

Hypothesis R_read_event : forall i j, keeps R (emit (EvRead i j)).

Lemma keeps_read_pattern i j : keeps R (read_pattern i j).
Proof.
  unfold read_pattern. apply keeps_bind; [apply R_read_event|].
  intros _. apply keeps_lift.
Qed.

Lemma keeps_pass_loop fuel n i j state :
  keeps R (pass_loop fuel n i j state).
Proof.
  revert j state. induction n as [|n IH]; intros j state; cbn [pass_loop].
  - intros m a m' e H. discriminate.
  - apply keeps_bind; [apply keeps_read_pattern|]. intros c.
    destruct (c =? 0); [apply keeps_ret|].
    apply keeps_bind; [apply keeps_read_pattern|]. intros raw.
    apply keeps_bind; [apply keeps_exec_instr|]. intros state'.
    apply IH.
Qed.

Lemma keeps_pass fuel i state : keeps R (pass fuel i state).
Proof. apply keeps_pass_loop. Qed.
End Keeps.

(** ** Views of events, and the three relations used below *)

Lemma pwm_writes_app e1 e2 :
  pwm_writes (e1 ++ e2) = pwm_writes e1 ++ pwm_writes e2.
Proof. apply flat_map_app. Qed.

Lemma sleeps_app e1 e2 : sleeps (e1 ++ e2) = sleeps e1 ++ sleeps e2.
Proof. apply flat_map_app. Qed.

Lemma reads_app e1 e2 : reads (e1 ++ e2) = reads e1 ++ reads e2.
Proof. apply flat_map_app. Qed.

Lemma count_ticks_app e1 e2 :
  count_ticks (e1 ++ e2) = count_ticks e1 + count_ticks e2.
Proof.
  unfold count_ticks. rewrite filter_app, length_app. lia.
Qed.

Lemma count_ticks_nonneg e : 0 <= count_ticks e.
Proof. unfold count_ticks. lia. Qed.

Lemma ticks_follow_nil m : ticks_follow m m [].
Proof. unfold ticks_follow. cbn. f_equal. lia. Qed.

Lemma ticks_follow_app m m1 m2 e1 e2 :
  ticks_follow m m1 e1 -> ticks_follow m1 m2 e2 ->
  ticks_follow m m2 (e1 ++ e2).
Proof.
  unfold ticks_follow, uint16. intros H1 H2.
  rewrite H2, count_ticks_app, <- Zplus_mod_idemp_l, H1, Zplus_mod_idemp_l.
  f_equal. lia.
Qed.

Lemma ticks_follow_isr : keeps ticks_follow isr.
Proof.
  intros m a m' e H. inversion H; subst. unfold ticks_follow, uint16. cbn.
  apply Zmod_mod.
Qed.

Lemma ticks_follow_emit ev :
  ev <> EvTick -> keeps ticks_follow (emit ev).
Proof.
  intros Hev m a m' e H. inversion H; subst. unfold ticks_follow.
  destruct ev; try congruence; cbn; f_equal; lia.
Qed.

Lemma ticks_follow_pwm v : keeps ticks_follow (setPwmDutyCycle v).
Proof.
  intros m a m' e H. inversion H; subst. unfold ticks_follow. cbn.
  f_equal. lia.
Qed.

Lemma pwm_follows_nil m : pwm_follows m m [].
Proof. reflexivity. Qed.

Lemma last_cons {A} (l : list A) x d : last (x :: l) d = last l x.
Proof.
  revert x d. induction l as [|y l IH]; intros x d; [reflexivity|].
  change (last (y :: l) d = last (y :: l) x). rewrite !IH. reflexivity.
Qed.

Lemma last_append {A} (l1 l2 : list A) d :
  last (l1 ++ l2) d = last l2 (last l1 d).
Proof.
  revert d. induction l1 as [|x l1 IH]; intros d; [reflexivity|].
  rewrite <- app_comm_cons, !last_cons. apply IH.
Qed.

Lemma pwm_follows_app m m1 m2 e1 e2 :
  pwm_follows m m1 e1 -> pwm_follows m1 m2 e2 -> pwm_follows m m2 (e1 ++ e2).
Proof.
  unfold pwm_follows. intros H1 H2.
  rewrite H2, H1, pwm_writes_app, last_append. reflexivity.
Qed.

Lemma pwm_follows_isr : keeps pwm_follows isr.
Proof. intros m a m' e H. inversion H; subst. reflexivity. Qed.

Lemma pwm_follows_emit ev :
  (forall v, ev <> EvPwm v) -> keeps pwm_follows (emit ev).
Proof.
  intros Hev m a m' e H. inversion H; subst.
  destruct ev; try reflexivity. destruct (Hev v eq_refl).
Qed.

Lemma pwm_follows_pwm v : keeps pwm_follows (setPwmDutyCycle v).
Proof. intros m a m' e H. inversion H; subst. reflexivity. Qed.

Lemma reads_nothing_nil m : reads_nothing m m [].
Proof. reflexivity. Qed.

Lemma reads_nothing_app m m1 m2 e1 e2 :
  reads_nothing m m1 e1 -> reads_nothing m1 m2 e2 ->
  reads_nothing m m2 (e1 ++ e2).
Proof.
  unfold reads_nothing. intros H1 H2. rewrite reads_app, H1, H2. reflexivity.
Qed.

Lemma reads_nothing_isr : keeps reads_nothing isr.
Proof. intros m a m' e H. inversion H; subst. reflexivity. Qed.

Lemma reads_nothing_sleep_event n : keeps reads_nothing (emit (EvSleep n)).
Proof. intros m a m' e H. inversion H; subst. reflexivity. Qed.

Lemma reads_nothing_pwm v : keeps reads_nothing (setPwmDutyCycle v).
Proof. intros m a m' e H. inversion H; subst. reflexivity. Qed.

(** A pass moves the tick counter only through the handler. *)
Lemma pass_ticks_follow fuel i state : keeps ticks_follow (pass fuel i state).
Proof.
  apply (keeps_pass ticks_follow ticks_follow_nil ticks_follow_app
           ticks_follow_isr
           (fun n => ticks_follow_emit (EvSleep n) ltac:(discriminate))
           ticks_follow_pwm
           (fun i j => ticks_follow_emit (EvRead i j) ltac:(discriminate))).
Qed.

(** After a pass the compare register holds the last brightness written. *)
Lemma pass_pwm_follows fuel i state : keeps pwm_follows (pass fuel i state).
Proof.
  apply (keeps_pass pwm_follows pwm_follows_nil pwm_follows_app
           pwm_follows_isr
           (fun n => pwm_follows_emit (EvSleep n) ltac:(discriminate))
           pwm_follows_pwm
           (fun i j => pwm_follows_emit (EvRead i j) ltac:(discriminate))).
Qed.

Lemma fade_pwm_follows fuel tbl sign d :
  keeps pwm_follows (fade fuel tbl sign d).
Proof.
  apply (keeps_fade pwm_follows pwm_follows_nil pwm_follows_app
           pwm_follows_isr
           (fun n => pwm_follows_emit (EvSleep n) ltac:(discriminate))
           pwm_follows_pwm).
Qed.

(** An instruction reads no other instruction. *)
Lemma exec_instr_reads_nothing fuel raw state :
  keeps reads_nothing (exec_instr fuel raw state).
Proof.
  apply (keeps_exec_instr reads_nothing reads_nothing_nil reads_nothing_app
           reads_nothing_isr reads_nothing_sleep_event reads_nothing_pwm).
Qed.

(** ** [sleep] returns *)

Lemma uint16_range z : 0 <= uint16 z < 65536.
Proof. unfold uint16. apply Z.mod_pos_bound. lia. Qed.

Lemma uint16_small z : 0 <= z < 65536 -> uint16 z = z.
Proof. unfold uint16. apply Z.mod_small. Qed.

Lemma uint8_range z : 0 <= uint8 z < 256.
Proof. unfold uint8. apply Z.mod_pos_bound. lia. Qed.

Lemma uint8_small z : 0 <= z < 256 -> uint8 z = z.
Proof. unfold uint8. apply Z.mod_small. Qed.

Lemma isr_run m :
  isr m = Ok (tt, mkMachine (uint16 (ticks m + 1)) (OCR0A m), [EvTick]).
Proof. reflexivity. Qed.

Lemma read_ticks_run m : read_ticks m = Ok (ticks m, m, []).
Proof. reflexivity. Qed.

(** While the counter does not wrap, [sleep_loop] runs the handler until the
    counter is [end], and once in any case. *)
Lemma sleep_loop_nowrap n e m :
  e <= 65535 -> 0 <= ticks m < 65535 -> 65535 - ticks m <= Z.of_nat n ->
  sleep_loop n e m =
  Ok (tt, mkMachine (Z.max e (ticks m + 1)) (OCR0A m),
      repeat EvTick (Z.to_nat (Z.max e (ticks m + 1) - ticks m))).
Proof.
  intros He. revert m. induction n as [|n IH]; intros m Ht Hn; [lia|].
  cbn [sleep_loop].
  rewrite (bind_run isr _ m (isr_run m)).
  rewrite (bind_run read_ticks _ _ (read_ticks_run _)).
  cbn [ticks]. rewrite uint16_small by lia.
  destruct (e >? ticks m + 1) eqn:E.
  - rewrite IH by (cbn [ticks]; lia). cbn [ticks OCR0A prepend app].
    replace (Z.max e (ticks m + 1 + 1)) with e by lia.
    replace (Z.max e (ticks m + 1)) with e by lia.
    replace (Z.to_nat (e - ticks m)) with (S (Z.to_nat (e - (ticks m + 1))))
      by lia.
    reflexivity.
  - cbn [ret prepend app].
    replace (Z.max e (ticks m + 1)) with (ticks m + 1) by lia.
    replace (Z.to_nat (ticks m + 1 - ticks m)) with 1%nat by lia.
    reflexivity.
Qed.

Lemma sleep_loop_total fuel e m :
  (enough <= fuel)%nat -> 0 <= e < 65536 ->
  exists m' w,
    sleep_loop fuel e m = Ok (tt, m', repeat EvTick w) /\
    OCR0A m' = OCR0A m /\ (1 <= w)%nat /\ 0 <= ticks m' < 65536.
Proof.
  intros Hf He. destruct fuel as [|n]; [unfold enough in Hf; lia|].
  assert (Hn : 65535 <= Z.of_nat n) by (unfold enough in Hf; lia).
  cbn [sleep_loop].
  rewrite (bind_run isr _ m (isr_run m)).
  rewrite (bind_run read_ticks _ _ (read_ticks_run _)).
  cbn [ticks]. pose proof (uint16_range (ticks m + 1)) as Hr.
  destruct (e >? uint16 (ticks m + 1)) eqn:E.
  - rewrite sleep_loop_nowrap by (cbn [ticks]; lia).
    cbn [ticks OCR0A prepend app].
    eexists _, (S _). split; [reflexivity|]. cbn [ticks OCR0A].
    repeat split; lia.
  - exists (mkMachine (uint16 (ticks m + 1)) (OCR0A m)), 1%nat.
    cbn [ret prepend app repeat ticks OCR0A]. repeat split; lia.
Qed.

Lemma sleep_total {fuel} d m :
  (enough <= fuel)%nat ->
  exists m' w,
    sleep fuel d m = Ok (tt, m', EvSleep (uint16 d) :: repeat EvTick w) /\
    OCR0A m' = OCR0A m /\ (1 <= w)%nat /\ 0 <= ticks m' < 65536.
Proof.
  intros Hf. unfold sleep.
  destruct (sleep_loop_total fuel (uint16 (ticks m + uint16 d)) m Hf
              (uint16_range _)) as (m' & w & H & Hrest).
  exists m', w. split; [|exact Hrest].
  unfold bind, emit, read_ticks. rewrite H. reflexivity.
Qed.

(** Without a wrap of the counter, [sleep] lasts [delay] ticks, and one tick
    when [delay] is 0. *)
Lemma sleep_exact fuel d m :
  (enough <= fuel)%nat -> 0 <= d < 65536 -> 0 <= ticks m ->
  ticks m + Z.max d 1 < 65536 ->
  sleep fuel d m =
  Ok (tt, mkMachine (ticks m + Z.max d 1) (OCR0A m),
      EvSleep d :: repeat EvTick (Z.to_nat (Z.max d 1))).
Proof.
  intros Hf Hd Ht Hw. unfold sleep.
  rewrite (uint16_small d) by lia.
  rewrite (bind_run (emit (EvSleep d)) _ m (eq_refl : emit (EvSleep d) m = Ok (tt, m, [EvSleep d]))).
  rewrite (bind_run read_ticks _ _ (read_ticks_run _)).
  rewrite uint16_small by lia.
  assert (Hle : (Z.to_nat 65535 <= fuel)%nat) by (unfold enough in Hf; lia).
  pose proof (sleep_loop_nowrap (Z.to_nat 65535) (ticks m + d) m) as H.
  apply (sleep_loop_mono (ticks m + d) Hle) in H; try lia.
  rewrite H.
  cbn [prepend app].
  replace (Z.max (ticks m + d) (ticks m + 1)) with (ticks m + Z.max d 1) by lia.
  replace (ticks m + Z.max d 1 - ticks m) with (Z.max d 1) by lia.
  reflexivity.
Qed.

(** ** The fade, level by level *)

Lemma views_of_ticks w :
  pwm_writes (repeat EvTick w) = [] /\ sleeps (repeat EvTick w) = [] /\
  reads (repeat EvTick w) = [] /\ count_ticks (repeat EvTick w) = Z.of_nat w.
Proof.
  induction w as [|w (H1 & H2 & H3 & H4)]; [repeat split|].
  cbn [repeat]. repeat split; try assumption.
  unfold count_ticks in *. cbn [filter length]. lia.
Qed.

Lemma fade_sleep_run {fuel} d r m :
  (enough <= fuel)%nat ->
  exists m' w x r',
    fade_sleep fuel d r m = Ok (r', m', EvSleep x :: repeat EvTick w) /\
    fade_delays d r 1 = [x] /\
    r' = (if r =? 0 then r else uint8 (r - 1)) /\ (1 <= w)%nat.
Proof.
  intros Hf. unfold fade_sleep. cbn [fade_delays].
  destruct (r =? 0).
  - destruct (sleep_total (Z.quot d 64) m Hf) as (m' & w & H & _ & Hw & _).
    exists m', w, (uint16 (Z.quot d 64)), r.
    rewrite (bind_run _ _ m H). cbn [ret prepend]. rewrite app_nil_r. auto.
  - destruct (sleep_total (Z.quot d 64 + 1) m Hf) as (m' & w & H & _ & Hw & _).
    exists m', w, (uint16 (Z.quot d 64 + 1)), (uint8 (r - 1)).
    rewrite (bind_run _ _ m H). cbn [ret prepend]. rewrite app_nil_r. auto.
Qed.

Lemma fade_body_run {fuel} tbl sign d st m {v s'} :
  (enough <= fuel)%nat ->
  fade_value tbl sign (k st) (step st) = Ok (v, s') ->
  exists m' w x r',
    fade_body fuel tbl sign d st m =
    Ok (mkFade (uint8 (k st + s')) s' r', m',
        EvPwm (uint16 v) :: EvSleep x :: repeat EvTick w) /\
    fade_delays d (remainder st) 1 = [x] /\
    r' = (if remainder st =? 0 then remainder st
          else uint8 (remainder st - 1)) /\ (1 <= w)%nat.
Proof.
  intros Hf Hv. unfold fade_body.
  destruct (fade_sleep_run d (remainder st)
              (mkMachine (ticks m) (uint16 v)) Hf)
    as (m' & w & x & r' & H & Hx & Hr & Hw).
  exists m', w, x, r'. split; [|auto].
  unfold bind at 1. unfold lift. rewrite Hv.
  unfold bind at 1. unfold setPwmDutyCycle at 1.
  unfold bind at 1. unfold emit, write_OCR0A. cbn [prepend app fst snd].
  rewrite (bind_run _ _ _ H). cbn [ret prepend app]. rewrite app_nil_r.
  reflexivity.
Qed.

(** [fade_loop] returns where [fade_values] does, and writes its levels. *)
Lemma fade_loop_run {fuel n} tbl sign d st m {vs kf sf} :
  (enough <= fuel)%nat ->
  fade_values n tbl sign (k st) (step st) = Ok (vs, (kf, sf)) ->
  exists rf m' e,
    fade_loop fuel n tbl sign d st m = Ok (mkFade kf sf rf, m', e) /\
    pwm_writes e = map uint16 vs /\
    sleeps e = fade_delays d (remainder st) (length vs) /\
    reads e = [].
Proof.
  intros Hf. revert st m vs.
  induction n as [|n IH]; intros st m vs Hv; cbn [fade_loop fade_values] in *;
    destruct (k st <? 128) eqn:Hk.
  - discriminate.
  - inversion Hv; subst. exists (remainder st), m, []. destruct st; auto.
  - destruct (fade_value tbl sign (k st) (step st)) as [[v s']| |] eqn:Hfv;
      try discriminate.
    cbn [fst snd] in Hv.
    destruct (fade_values n tbl sign (uint8 (k st + s')) s')
      as [[l ks]| |] eqn:Hrec; try discriminate.
    inversion Hv; subst. clear Hv.
    destruct (fade_body_run tbl sign d st m Hf Hfv)
      as (m1 & w & x & r' & Hb & Hx & Hr & Hw).
    destruct (IH (mkFade (uint8 (k st + s')) s' r') m1 l Hrec)
      as (rf & m' & e & Hl & Hp & Hs & Hrd).
    exists rf, m', (EvPwm (uint16 v) :: EvSleep x :: repeat EvTick w ++ e).
    destruct (views_of_ticks w) as (T1 & T2 & T3 & _).
    split; [|split; [|split]].
    + rewrite (bind_run _ _ _ Hb), Hl. reflexivity.
    + change (uint16 v :: pwm_writes (repeat EvTick w ++ e)
              = uint16 v :: map uint16 l).
      rewrite pwm_writes_app, T1, Hp. reflexivity.
    + change (x :: sleeps (repeat EvTick w ++ e)
              = fade_delays d (remainder st) (1 + length l)).
      rewrite sleeps_app, T2, Hs. cbn [app remainder].
      cbn [fade_delays Nat.add] in *. subst r'.
      destruct (remainder st =? 0); inversion Hx; reflexivity.
    + change (reads (repeat EvTick w ++ e) = []).
      rewrite reads_app, T3, Hrd. reflexivity.
  - inversion Hv; subst. exists (remainder st), m, []. destruct st; auto.
Qed.

Lemma fade_run {fuel n} tbl sign d m {vs kf sf} :
  (enough <= fuel)%nat -> (n <= fuel)%nat ->
  fade_values n tbl sign 1 (step (fade_init tbl sign d)) = Ok (vs, (kf, sf)) ->
  exists m' e,
    fade fuel tbl sign d m = Ok (tt, m', e) /\
    pwm_writes e = map uint16 vs /\
    sleeps e = fade_delays d (uint8 (Z.rem d 64)) (length vs) /\
    reads e = [] /\
    OCR0A m' = last (map uint16 vs) (OCR0A m).
Proof.
  intros Hf Hn Hv.
  destruct (fade_loop_run tbl sign d (fade_init tbl sign d) m Hf Hv)
    as (rf & m' & e & Hl & Hp & Hs & Hr).
  apply (fade_loop_mono tbl sign d (fade_init tbl sign d) (le_n fuel) Hn)
    in Hl.
  assert (H : fade fuel tbl sign d m = Ok (tt, m', e)).
  { unfold fade. rewrite (bind_run _ _ _ Hl). cbn [ret prepend].
    rewrite app_nil_r. reflexivity. }
  exists m', e. repeat split; try assumption.
  rewrite <- Hp. exact (fade_pwm_follows _ _ _ _ _ _ _ _ H).
Qed.

(** ** The acceleration table *)

(** C4 (the code departs from the claim): the shipped table has 6 entries,
    the first 0 and the last 255, but its interior entries 30, 60, 80, 10
    are not strictly increasing: the fourth is below the third. *)
Theorem acceleration_table_shape :
  length accelerationPoints = 6%nat /\
  hd_error accelerationPoints = Some 0 /\
  last accelerationPoints 0 = 255 /\
  removelast (tl accelerationPoints) = [30; 60; 80; 10] /\
  ~ Sorted Z.lt (removelast (tl accelerationPoints)).
Proof.
  repeat split. cbn. intros H.
  repeat match goal with
         | H : Sorted _ (_ :: _) |- _ => inversion H; subst; clear H
         | H : HdRel _ _ (_ :: _) |- _ => inversion H; subst; clear H
         end.
  lia.
Qed.

(** ** The fade on the shipped table *)

Lemma fade_values_shipped sign d :
  fade_values 127 accelerationPoints sign 1
              (step (fade_init accelerationPoints sign d))
  = Ok (levels sign, (if sign then 131 else 128, if sign then 5 else 1)).
Proof. destruct sign; vm_compute; reflexivity. Qed.

Lemma levels_uint16 sign : map uint16 (levels sign) = levels sign.
Proof. destruct sign; vm_compute; reflexivity. Qed.

(** Every fade on the shipped table returns, having written [levels sign]. *)
Lemma fade_shipped {fuel} sign d m :
  (enough <= fuel)%nat ->
  exists m' e,
    fade fuel accelerationPoints sign d m = Ok (tt, m', e) /\
    pwm_writes e = levels sign /\
    sleeps e = fade_delays d (uint8 (Z.rem d 64)) (length (levels sign)) /\
    reads e = [] /\
    OCR0A m' = last (levels sign) (OCR0A m).
Proof.
  intros Hf. pose proof (fade_values_shipped sign d) as Hv.
  assert (Hn : (127 <= fuel)%nat) by (unfold enough in Hf; lia).
  destruct (fade_run accelerationPoints sign d m Hf Hn Hv)
    as (m' & e & H & Hp & Hs & Hr & Ho).
  rewrite levels_uint16 in Hp, Ho. exists m', e. auto.
Qed.

Lemma sum_fade_delays d r c :
  0 <= Z.quot d 64 -> Z.quot d 64 + 1 < 65536 -> 0 <= r < 256 ->
  sum (fade_delays d r c)
  = Z.of_nat c * Z.quot d 64 + Z.min r (Z.of_nat c).
Proof.
  intros Hq1 Hq2. revert r.
  induction c as [|c IH]; intros r Hr; cbn [fade_delays].
  - cbn [sum fold_right]. lia.
  - destruct (r =? 0) eqn:E; cbn [sum fold_right]; fold (sum (fade_delays d r c));
      fold (sum (fade_delays d (uint8 (r - 1)) c)).
    + rewrite IH by lia. rewrite uint16_small by lia. lia.
    + rewrite uint8_small by lia. rewrite IH by lia.
      rewrite uint16_small by lia. lia.
Qed.

Lemma Ok_pair_inv {A B} (a a' : A) (b b' : B) :
  Ok (a, b) = Ok (a', b') -> a = a' /\ b = b'.
Proof. intros H. injection H as -> ->. auto. Qed.

(** No fade writes the boundary it heads for, whatever the table: [k] stays
    below 128, so [k - 1] is never 127 and [128 - k] is never 0. *)
Lemma fade_value_not_boundary tbl sign k0 s v s' :
  0 <= k0 < 128 -> fade_value tbl sign k0 s = Ok (v, s') ->
  v <> (if sign then 127 else 0).
Proof.
  intros Hk. unfold fade_value.
  destruct (lookup tbl (accel_index sign s)); try discriminate.
  destruct sign; cbv zeta; intros H; apply Ok_pair_inv in H;
    destruct H as [<- _]; unfold uint8.
  - destruct (Z.eq_dec k0 0) as [->|]; [intros E; discriminate|].
    rewrite Z.mod_small by lia. lia.
  - rewrite Z.mod_small by lia. lia.
Qed.

Lemma fade_loop_never_writes_boundary fuel n tbl sign d st m st' m' e :
  0 <= k st < 256 ->
  fade_loop fuel n tbl sign d st m = Ok (st', m', e) ->
  Forall (fun v => v <> (if sign then 127 else 0)) (pwm_writes e).
Proof.
  revert st m e. induction n as [|n IH]; intros st m e Hk;
    cbn [fade_loop]; destruct (k st <? 128) eqn:E; try discriminate;
    try (intros H; inversion H; subst; constructor).
  intros H. apply bind_inv in H.
  destruct H as (st1 & m1 & e1 & e2 & Hb & Hl & ->).
  unfold fade_body in Hb. apply bind_inv in Hb.
  destruct Hb as ([v s'] & m2 & e3 & e4 & Hv & Hb & ->).
  unfold lift in Hv.
  destruct (fade_value tbl sign (k st) (step st)) as [vs| |] eqn:Hfv;
    inversion Hv; subst. clear Hv.
  apply bind_inv in Hb. destruct Hb as ([] & m3 & e5 & e6 & Hp & Hb & ->).
  inversion Hp; subst. clear Hp.
  apply bind_inv in Hb. destruct Hb as (r & m4 & e7 & e8 & Hs & Hr & ->).
  inversion Hr; subst. clear Hr.
  assert (Hnr : pwm_writes e7 = []).
  { pose proof (keeps_fade_sleep (fun _ _ e => pwm_writes e = [])
                  (fun _ => eq_refl)) as K.
    eapply K; try eassumption.
    - intros ? ? ? ? ? H1 H2. rewrite pwm_writes_app, H1, H2. reflexivity.
    - intros ? ? ? ? H. inversion H; subst. reflexivity.
    - intros ? ? ? ? ? H. inversion H; subst. reflexivity. }
  rewrite !pwm_writes_app, Hnr. cbn [pwm_writes flat_map app fst snd].
  constructor.
  - rewrite uint16_small.
    + apply (fade_value_not_boundary tbl sign (k st) (step st) v s').
      * apply Z.ltb_lt in E. lia.
      * exact Hfv.
    + unfold fade_value in Hfv.
      destruct (lookup tbl (accel_index sign (step st))); try discriminate.
      destruct sign; cbv zeta in Hfv; apply Ok_pair_inv in Hfv;
        destruct Hfv as [<- _];
        match goal with |- context [uint8 ?z] => pose proof (uint8_range z) end;
        lia.
  - eapply IH; [|exact Hl]. cbn [k]. apply uint8_range.
Qed.

Lemma fade_never_writes_boundary fuel tbl sign d m m' e :
  fade fuel tbl sign d m = Ok (tt, m', e) ->
  Forall (fun v => v <> (if sign then 127 else 0)) (pwm_writes e).
Proof.
  unfold fade. intros H. apply bind_inv in H.
  destruct H as (st' & m1 & e1 & e2 & Hl & Hr & ->).
  injection Hr as <- <-. rewrite app_nil_r.
  eapply fade_loop_never_writes_boundary; [|exact Hl].
  cbn [fade_init k]. lia.
Qed.

(** C1 (the code departs from the claim): on the shipped table every fade
    returns, and the last brightness it writes, which the compare register
    then holds, is 125 when brightening and 1 when dimming, for every
    duration; the fade ends short of the boundary 127, respectively 0. *)
Theorem fade_stops_short_of_boundary fuel d m :
  (enough <= fuel)%nat ->
  (exists m' e,
      fade fuel accelerationPoints true d m = Ok (tt, m', e) /\
      last (pwm_writes e) (OCR0A m) = 125 /\ OCR0A m' = 125) /\
  (exists m' e,
      fade fuel accelerationPoints false d m = Ok (tt, m', e) /\
      last (pwm_writes e) (OCR0A m) = 1 /\ OCR0A m' = 1).
Proof.
  intros Hf. split.
  - destruct (fade_shipped true d m Hf) as (m' & e & H & Hp & _ & _ & Ho).
    exists m', e. rewrite Hp, Ho. split; [exact H | split; reflexivity].
  - destruct (fade_shipped false d m Hf) as (m' & e & H & Hp & _ & _ & Ho).
    exists m', e. rewrite Hp, Ho. split; [exact H | split; reflexivity].
Qed.

Lemma fade_stops_short_of_boundary_witness :
  (enough <= enough)%nat /\
  (exists m' e,
      fade enough accelerationPoints true 500 (mkMachine 0 0)
      = Ok (tt, m', e) /\
      last (pwm_writes e) (OCR0A (mkMachine 0 0)) = 125 /\ OCR0A m' = 125) /\
  (exists m' e,
      fade enough accelerationPoints false 500 (mkMachine 0 127)
      = Ok (tt, m', e) /\
      last (pwm_writes e) (OCR0A (mkMachine 0 127)) = 1 /\ OCR0A m' = 1).
Proof.
  split; [apply le_n|].
  split.
  - apply (fade_stops_short_of_boundary enough 500 (mkMachine 0 0)), le_n.
  - apply (fade_stops_short_of_boundary enough 500 (mkMachine 0 127)), le_n.
Defined.

(** C2 (the code departs from the claim): on the shipped table a fade of
    duration [d] sleeps [d / 64 + 1] ticks in its first [d mod 64]
    iterations and [d / 64] afterwards, but it has 62 iterations when
    brightening and 63 when dimming, not 64: the delays add up to less than
    [d] for every [d] from 128 on. *)
Theorem fade_sleeps_less_than_duration fuel sign d m :
  (enough <= fuel)%nat -> 128 <= d <= 32767 ->
  exists m' e,
    fade fuel accelerationPoints sign d m = Ok (tt, m', e) /\
    sleeps e
    = fade_delays d (d mod 64) (if sign then 62 else 63) /\
    sum (sleeps e)
    = (if sign then 62 else 63) * (d / 64)
      + Z.min (d mod 64) (if sign then 62 else 63) /\
    sum (sleeps e) < d.
Proof.
  intros Hf Hd.
  destruct (fade_shipped sign d m Hf) as (m' & e & H & _ & Hs & _ & _).
  exists m', e. split; [exact H|].
  assert (Hq : Z.quot d 64 = d / 64) by (apply Z.quot_div_nonneg; lia).
  assert (Hr : Z.rem d 64 = d mod 64) by (apply Z.rem_mod_nonneg; lia).
  pose proof (Z.mod_pos_bound d 64 ltac:(lia)) as Hm.
  pose proof (Z.div_mod d 64 ltac:(lia)) as Hdm.
  rewrite Hr, uint8_small in Hs by lia.
  assert (Hlen : length (levels sign) = if sign then 62%nat else 63%nat)
    by (destruct sign; reflexivity).
  rewrite Hlen in Hs.
  assert (Hsum : sum (sleeps e)
                 = (if sign then 62 else 63) * (d / 64)
                   + Z.min (d mod 64) (if sign then 62 else 63)).
  { rewrite Hs, sum_fade_delays by lia. rewrite Hq. destruct sign; lia. }
  split; [destruct sign; exact Hs|]. split; [exact Hsum|].
  rewrite Hsum. destruct sign; lia.
Qed.

Lemma fade_sleeps_less_than_duration_witness :
  (enough <= enough)%nat /\ 128 <= 500 <= 32767 /\
  exists m' e,
    fade enough accelerationPoints true 500 (mkMachine 0 0)
    = Ok (tt, m', e) /\
    sleeps e = fade_delays 500 (500 mod 64) 62 /\
    sum (sleeps e) = 62 * (500 / 64) + Z.min (500 mod 64) 62 /\
    sum (sleeps e) < 500.
Proof.
  split; [apply le_n|]. split; [lia|].
  apply (fade_sleeps_less_than_duration enough true 500 (mkMachine 0 0));
    [apply le_n | lia].
Defined.

(** ** The loop of the fade, iteration by iteration *)

Lemma fade_body_inv fuel tbl sign d st m st' m' e :
  fade_body fuel tbl sign d st m = Ok (st', m', e) ->
  exists v,
    fade_value tbl sign (k st) (step st) = Ok (v, step st') /\
    k st' = uint8 (k st + step st').
Proof.
  unfold fade_body. intros H. apply bind_inv in H.
  destruct H as ([v s'] & m1 & e1 & e2 & Hv & H & _).
  unfold lift in Hv.
  destruct (fade_value tbl sign (k st) (step st)) as [vs| |];
    try discriminate.
  injection Hv as -> _ _.
  apply bind_inv in H. destruct H as (_ & m2 & e3 & e4 & _ & H & _).
  apply bind_inv in H. destruct H as (r & m3 & e5 & e6 & _ & H & _).
  injection H as <- _ _. exists v. auto.
Qed.

Ltac table_lookup :=
  match goal with
  | |- context [lookup accelerationPoints ?i] =>
      let r := eval vm_compute in (lookup accelerationPoints i) in
      change (lookup accelerationPoints i) with r
  end.

(** On the shipped table an iteration finds its threshold, writes [k - 1] or
    [128 - k], and moves [step] by at most one, in the direction of the fade
    and within its range. *)
Lemma fade_value_shipped sign k0 s :
  1 <= k0 < 128 -> step_range sign s ->
  exists point v s',
    lookup accelerationPoints (accel_index sign s) = Ok point /\
    fade_value accelerationPoints sign k0 s = Ok (v, s') /\
    v = (if sign then k0 - 1 else 128 - k0) /\
    step_range sign s' /\
    (if sign then s <= s' <= s + 1 else s - 1 <= s' <= s).
Proof.
  unfold step_range. change maxStep with 4. intros Hk Hs.
  destruct sign.
  - assert (C : s = 1 \/ s = 2 \/ s = 3 \/ s = 4 \/ s = 5) by lia.
    unfold fade_value.
    destruct C as [-> | [-> | [-> | [-> | ->]]]];
      unfold accel_index; table_lookup; cbv zeta;
      rewrite !(uint8_small (k0 - 1)) by lia;
      destruct (k0 - 1 >=? _) eqn:E;
      eexists _, _, _; (split; [reflexivity|]); (split; [reflexivity|]);
      unfold uint8; try rewrite Z.mod_small by lia; lia.
  - assert (C : s = 1 \/ s = 2 \/ s = 3 \/ s = 4) by lia.
    unfold fade_value.
    destruct C as [-> | [-> | [-> | ->]]];
      unfold accel_index; table_lookup; cbv zeta;
      rewrite !(uint8_small (128 - k0)) by lia;
      destruct (128 - k0 <=? _) eqn:E;
      eexists _, _, _; (split; [reflexivity|]); (split; [reflexivity|]);
      unfold uint8; try rewrite Z.mod_small by lia; lia.
Qed.

Lemma fade_iter_shipped fuel sign d st m st' m' :
  1 <= k st -> step_range sign (step st) ->
  fade_iter fuel accelerationPoints sign d (st, m) (st', m') ->
  1 <= k st' /\ step_range sign (step st') /\
  k st' = k st + step st' /\
  (if sign then step st <= step st' <= step st + 1
   else step st - 1 <= step st' <= step st).
Proof.
  intros Hk Hs [Hlt (e & Hb)]. cbn [fst snd] in *.
  apply fade_body_inv in Hb. destruct Hb as (v & Hv & Hk').
  destruct (fade_value_shipped sign (k st) (step st) ltac:(lia) Hs)
    as (pt & v' & s' & _ & Hv' & _ & Hr & Hm).
  rewrite Hv in Hv'. apply Ok_pair_inv in Hv'. destruct Hv' as [_ <-].
  assert (Hb : 1 <= step st' <= 5)
    by (unfold step_range in Hr; change maxStep with 4 in Hr;
        destruct sign; lia).
  rewrite uint8_small in Hk' by lia.
  repeat split; try assumption; try lia; apply Hr.
Qed.

Lemma clos_1n_invariant {A} (R : A -> A -> Prop) (P : A -> Prop) :
  (forall x y, P x -> R x y -> P y) ->
  forall x y, clos_refl_trans_1n A R x y -> P x -> P y.
Proof.
  intros Hstep x y H. induction H as [x | x y z Hxy Hyz IH]; intros Hx.
  - exact Hx.
  - apply IH. exact (Hstep x y Hx Hxy).
Qed.

(** The invariant of the loop on the shipped table. *)
Lemma fade_reach_shipped fuel sign d m0 st m :
  fade_reach fuel accelerationPoints sign d m0 (st, m) ->
  1 <= k st /\ step_range sign (step st).
Proof.
  intros H.
  apply (clos_1n_invariant (fade_iter fuel accelerationPoints sign d)
           (fun x => 1 <= k (fst x) /\ step_range sign (step (fst x)))
           ltac:(intros [s1 m1] [s2 m2] [H1 H2] Hi; cbn [fst] in *;
                 destruct (fade_iter_shipped fuel sign d s1 m1 s2 m2 H1 H2 Hi)
                   as (? & ? & _); auto)
           _ _ H).
  cbn [fst fade_init k step]. unfold step_range. change maxStep with 4.
  destruct sign; [lia|]. change (uint8 _) with 4. lia.
Qed.

Lemma fade_iterate_reach fuel n tbl sign d x y :
  fade_iterate fuel n tbl sign d x = Some y ->
  clos_refl_trans_1n _ (fade_iter fuel tbl sign d) x y.
Proof.
  revert x. induction n as [|n IH]; intros x; cbn [fade_iterate].
  - intros [= ->]. constructor.
  - destruct (k (fst x) <? 128) eqn:E; try discriminate.
    destruct (fade_body fuel tbl sign d (fst x) (snd x))
      as [[[st' m'] e]| |] eqn:Hb; try discriminate.
    intros H.
    apply Relation_Operators.rt1n_trans with (y := (st', m'));
      [|apply IH, H].
    split; [apply Z.ltb_lt, E | exists e; exact Hb].
Qed.

Lemma fade_body_events fuel tbl sign d st m st' m' e :
  fade_body fuel tbl sign d st m = Ok (st', m', e) ->
  exists v x w,
    fade_value tbl sign (k st) (step st) = Ok (v, step st') /\
    e = EvPwm (uint16 v) :: EvSleep x :: repeat EvTick w /\
    fade_delays d (remainder st) 1 = [x] /\
    remainder st' = (if remainder st =? 0 then remainder st
                     else uint8 (remainder st - 1)) /\
    k st' = uint8 (k st + step st').
Proof.
  intros H. destruct (fade_body_inv _ _ _ _ _ _ _ _ _ H) as (v & Hv & Hk).
  apply (fade_body_mono fuel (Nat.max fuel enough) tbl sign d st
           (Nat.le_max_l fuel enough)) in H.
  destruct (fade_body_run tbl sign d st m (Nat.le_max_r fuel enough) Hv)
    as (m1 & w & x & r' & Hb & Hx & Hr & _).
  rewrite Hb in H. injection H as Hst _ <-. exists v, x, w.
  rewrite <- Hst. cbn [remainder]. repeat split; assumption.
Qed.

Lemma fade_iterate_run {fuel n} tbl sign d st m {vs kf sf} :
  (enough <= fuel)%nat ->
  fade_values n tbl sign (k st) (step st) = Ok (vs, (kf, sf)) ->
  exists st' m',
    fade_iterate fuel (length vs) tbl sign d (st, m) = Some (st', m') /\
    k st' = kf /\ step st' = sf.
Proof.
  intros Hf. revert st m vs.
  induction n as [|n IH]; intros st m vs Hv; cbn [fade_values] in Hv;
    destruct (k st <? 128) eqn:Hk; try discriminate;
    try (injection Hv as <- <- <-; exists st, m; cbn [length fade_iterate];
         auto).
  destruct (fade_value tbl sign (k st) (step st)) as [[v s']| |] eqn:Hfv;
    try discriminate.
  cbn [fst snd] in Hv.
  destruct (fade_values n tbl sign (uint8 (k st + s')) s')
    as [[l ks]| |] eqn:Hrec; try discriminate.
  injection Hv as <- ->.
  destruct (fade_body_run tbl sign d st m Hf Hfv)
    as (m1 & w & x & r' & Hb & _).
  destruct (IH (mkFade (uint8 (k st + s')) s' r') m1 l Hrec)
    as (st' & m' & Hi & Hkf).
  exists st', m'. split; [|exact Hkf].
  cbn [length fade_iterate fst snd]. rewrite Hk, Hb. exact Hi.
Qed.

(** A brightening fade of 500 ticks does not make 127 brightness updates. *)
Lemma fade_does_not_write_127_times :
  ~ (forall m' e,
        fade enough accelerationPoints true 500 (mkMachine 0 0)
        = Ok (tt, m', e) ->
        length (pwm_writes e) = 127%nat).
Proof.
  intros H.
  destruct (fade_shipped true 500 (mkMachine 0 0) (le_n enough))
    as (m' & e & Hf & Hp & _).
  specialize (H m' e Hf). rewrite Hp in H. discriminate H.
Qed.

(** C3 (amended): every fade on the shipped table makes exactly one
    brightness update in each iteration of its loop, of [k - 1] when
    brightening and of [128 - k] when dimming, and the loop is left after 62
    iterations when brightening and after 63 when dimming, not 127, because
    [k] advances by [step]: the fade returns having written the 62 levels
    [brightening_levels], respectively the 63 levels [dimming_levels].  The
    first update writes the boundary that is left (0 when brightening, 127
    when dimming), each later one is strictly nearer to the opposite
    boundary, and all are within 0..127. *)
Theorem fade_update_count fuel sign d m :
  (enough <= fuel)%nat ->
  (exists m' e,
      fade fuel accelerationPoints sign d m = Ok (tt, m', e) /\
      pwm_writes e = levels sign /\
      length (pwm_writes e) = (if sign then 62 else 63)%nat /\
      hd_error (pwm_writes e) = Some (if sign then 0 else 127) /\
      Sorted (if sign then Z.lt else Z.gt) (pwm_writes e) /\
      Forall (fun v => 0 <= v <= 127) (pwm_writes e)) /\
  (exists st' m',
      fade_iterate fuel (if sign then 62 else 63) accelerationPoints sign d
        (fade_init accelerationPoints sign d, m) = Some (st', m') /\
      128 <= k st') /\
  (forall st m1 st' m1' e1,
      fade_reach fuel accelerationPoints sign d m (st, m1) -> k st < 128 ->
      fade_body fuel accelerationPoints sign d st m1 = Ok (st', m1', e1) ->
      pwm_writes e1 = [if sign then k st - 1 else 128 - k st]).
Proof.
  intros Hf. split; [|split].
  - destruct (fade_shipped sign d m Hf) as (m' & e & H & Hp & _).
    exists m', e. rewrite Hp. split; [exact H|]. split; [reflexivity|].
    destruct sign; cbn [levels];
      (split; [reflexivity|]); (split; [reflexivity|]);
      (split; [repeat constructor | repeat (constructor; [lia|]); constructor]).
  - destruct (fade_iterate_run accelerationPoints sign d
                (fade_init accelerationPoints sign d) m Hf
                (fade_values_shipped sign d)) as (st' & m' & Hi & Hk & _).
    exists st', m'. rewrite Hk.
    destruct sign; (split; [exact Hi | lia]).
  - intros st m1 st' m1' e1 Hr Hlt Hb.
    destruct (fade_reach_shipped fuel sign d m st m1 Hr) as [Hk Hs].
    destruct (fade_body_events _ _ _ _ _ _ _ _ _ Hb)
      as (v & x & w & Hv & -> & _).
    destruct (fade_value_shipped sign (k st) (step st) ltac:(lia) Hs)
      as (pt & v' & s' & _ & Hv' & Hval & _).
    rewrite Hv in Hv'. apply Ok_pair_inv in Hv'. destruct Hv' as [<- _].
    destruct (views_of_ticks w) as (V1 & _).
    change (uint16 v :: pwm_writes (repeat EvTick w)
            = [if sign then k st - 1 else 128 - k st]).
    rewrite V1, uint16_small by (destruct sign; lia).
    rewrite Hval. reflexivity.
Qed.

Lemma fade_update_count_witness :
  (enough <= enough)%nat /\
  (exists m' e,
      fade enough accelerationPoints false 500 (mkMachine 0 127)
      = Ok (tt, m', e) /\
      pwm_writes e = levels false /\
      length (pwm_writes e) = 63%nat /\
      hd_error (pwm_writes e) = Some 127 /\
      Sorted Z.gt (pwm_writes e) /\
      Forall (fun v => 0 <= v <= 127) (pwm_writes e)) /\
  (exists st' m',
      fade_iterate enough 63 accelerationPoints false 500
        (fade_init accelerationPoints false 500, mkMachine 0 127)
      = Some (st', m') /\
      128 <= k st') /\
  (forall st m1 st' m1' e1,
      fade_reach enough accelerationPoints false 500 (mkMachine 0 127)
        (st, m1) ->
      k st < 128 ->
      fade_body enough accelerationPoints false 500 st m1
      = Ok (st', m1', e1) ->
      pwm_writes e1 = [128 - k st]).
Proof.
  split; [apply le_n|].
  apply (fade_update_count enough false 500 (mkMachine 0 127)), le_n.
Defined.

(** In a brightening fade of 500 ticks [step] comes to 5, above [maxStep]. *)
Lemma step_exceeds_maxStep :
  ~ (forall st m,
        fade_reach enough accelerationPoints true 500 (mkMachine 0 0) (st, m) ->
        1 <= step st <= maxStep).
Proof.
  intros H.
  assert (R : fade_reach enough accelerationPoints true 500 (mkMachine 0 0)
                (mkFade 91 5 0, mkMachine 430 85)).
  { apply (fade_iterate_reach enough 54). vm_compute. reflexivity. }
  apply H in R. cbn [step] in R. change maxStep with 4 in R. lia.
Qed.

(** C5 (amended): within a fade on the shipped table [step] starts at 1 when
    brightening and at [maxStep], the number of interior thresholds, when
    dimming; from one iteration to the next it never decreases when
    brightening and never increases when dimming; it stays within
    [1, maxStep + 1] when brightening (it goes up to the index of the last
    entry) and within [1, maxStep] when dimming. *)
Theorem step_size_course fuel sign d m0 st m :
  fade_reach fuel accelerationPoints sign d m0 (st, m) ->
  step (fade_init accelerationPoints sign d) = (if sign then 1 else maxStep) /\
  1 <= step st <= (if sign then maxStep + 1 else maxStep) /\
  forall st' m',
    fade_iter fuel accelerationPoints sign d (st, m) (st', m') ->
    if sign then step st <= step st' else step st' <= step st.
Proof.
  intros H. destruct (fade_reach_shipped fuel sign d m0 st m H) as [Hk Hs].
  split; [destruct sign; reflexivity|]. split; [exact Hs|].
  intros st' m' Hi.
  destruct (fade_iter_shipped fuel sign d st m st' m' Hk Hs Hi)
    as (_ & _ & _ & Hm).
  destruct sign; lia.
Qed.

Lemma step_size_course_witness :
  fade_reach enough accelerationPoints true 500 (mkMachine 0 0)
    (mkFade 2 1 51, mkMachine 8 0) /\
  step (fade_init accelerationPoints true 500) = 1 /\
  1 <= step (mkFade 2 1 51) <= maxStep + 1 /\
  forall st' m',
    fade_iter enough accelerationPoints true 500
      (mkFade 2 1 51, mkMachine 8 0) (st', m') ->
    step (mkFade 2 1 51) <= step st'.
Proof.
  assert (R : fade_reach enough accelerationPoints true 500 (mkMachine 0 0)
                (mkFade 2 1 51, mkMachine 8 0)).
  { apply (fade_iterate_reach enough 1). vm_compute. reflexivity. }
  split; [exact R|].
  exact (step_size_course enough true 500 (mkMachine 0 0) (mkFade 2 1 51)
           (mkMachine 8 0) R).
Defined.

(** C9: on the shipped 6-entry table every access of a fade is in bounds.  At
    the head of every iteration [step] is within 1..5; the index read is
    [step], at most 5, when brightening, and [step - 1], at least 0, when
    dimming; the entry read at index 5 is above every brightness of a
    brightening fade and the entry read at index 0 is below every brightness
    of a dimming fade, so [step] goes no further. *)
Theorem table_access_in_bounds fuel sign d m0 st m :
  fade_reach fuel accelerationPoints sign d m0 (st, m) -> k st < 128 ->
  1 <= step st <= 5 /\
  0 <= accel_index sign (step st) < Z.of_nat (length accelerationPoints) /\
  (if sign then accel_index sign (step st) = step st /\ step st <= 5
   else accel_index sign (step st) = step st - 1 /\ 0 <= step st - 1) /\
  exists point v s',
    lookup accelerationPoints (accel_index sign (step st)) = Ok point /\
    fade_value accelerationPoints sign (k st) (step st) = Ok (v, s') /\
    1 <= s' <= 5 /\
    (if sign then step st = 5 -> v < point else step st = 1 -> point < v).
Proof.
  intros H Hlt. destruct (fade_reach_shipped fuel sign d m0 st m H) as [Hk Hs].
  destruct (fade_value_shipped sign (k st) (step st) ltac:(lia) Hs)
    as (pt & v & s' & Hl & Hv & Hval & Hr & Hm).
  unfold step_range in *. change maxStep with 4 in *.
  change (Z.of_nat (length accelerationPoints)) with 6.
  split; [destruct sign; lia|].
  split; [destruct sign; cbn [accel_index]; lia|].
  split; [destruct sign; cbn [accel_index]; lia|].
  exists pt, v, s'. repeat split; try assumption; try (destruct sign; lia).
  destruct sign; intros E; rewrite E in Hl; cbn [accel_index] in Hl;
    injection Hl as <-; lia.
Qed.

Lemma table_access_in_bounds_witness :
  fade_reach enough accelerationPoints false 500 (mkMachine 0 127)
    (mkFade 5 4 51, mkMachine 8 127) /\
  k (mkFade 5 4 51) < 128 /\
  1 <= step (mkFade 5 4 51) <= 5 /\
  0 <= accel_index false (step (mkFade 5 4 51))
    < Z.of_nat (length accelerationPoints) /\
  (accel_index false (step (mkFade 5 4 51)) = step (mkFade 5 4 51) - 1 /\
   0 <= step (mkFade 5 4 51) - 1) /\
  exists point v s',
    lookup accelerationPoints (accel_index false (step (mkFade 5 4 51)))
    = Ok point /\
    fade_value accelerationPoints false (k (mkFade 5 4 51))
      (step (mkFade 5 4 51)) = Ok (v, s') /\
    1 <= s' <= 5 /\
    (step (mkFade 5 4 51) = 1 -> point < v).
Proof.
  assert (R : fade_reach enough accelerationPoints false 500 (mkMachine 0 127)
                (mkFade 5 4 51, mkMachine 8 127)).
  { apply (fade_iterate_reach enough 1). vm_compute. reflexivity. }
  assert (K : k (mkFade 5 4 51) < 128) by (cbn; lia).
  split; [exact R|]. split; [exact K|].
  exact (table_access_in_bounds enough false 500 (mkMachine 0 127)
           (mkFade 5 4 51) (mkMachine 8 127) R K).
Defined.

(** C10: on the shipped table the loop of every fade terminates, in both
    directions and for every duration.  The step an iteration adds to [k] is
    at least 1, so [k] strictly increases from one iteration to the next; the
    loop is left, with [k] at 128 or above, within 127 iterations, and the
    fade returns. *)
Theorem fade_terminates fuel sign d m :
  (enough <= fuel)%nat ->
  (forall st m1 st' m1',
      fade_reach fuel accelerationPoints sign d m (st, m1) ->
      fade_iter fuel accelerationPoints sign d (st, m1) (st', m1') ->
      1 <= step st' /\ k st' = k st + step st' /\ k st < k st') /\
  (exists st' m' e,
      fade_loop fuel 127 accelerationPoints sign d
        (fade_init accelerationPoints sign d) m = Ok (st', m', e) /\
      128 <= k st') /\
  (exists m' e, fade fuel accelerationPoints sign d m = Ok (tt, m', e)).
Proof.
  intros Hf. split; [|split].
  - intros st m1 st' m1' Hr Hi.
    destruct (fade_reach_shipped fuel sign d m st m1 Hr) as [Hk Hs].
    destruct (fade_iter_shipped fuel sign d st m1 st' m1' Hk Hs Hi)
      as (_ & Hs' & Hk' & _).
    unfold step_range in Hs'. lia.
  - destruct (fade_loop_run accelerationPoints sign d
                (fade_init accelerationPoints sign d) m Hf
                (fade_values_shipped sign d))
      as (rf & m' & e & H & _).
    eexists _, m', e. split; [exact H|]. cbn [k]. destruct sign; lia.
  - destruct (fade_shipped sign d m Hf) as (m' & e & H & _).
    exists m', e. exact H.
Qed.

Lemma fade_terminates_witness :
  (enough <= enough)%nat /\
  (forall st m1 st' m1',
      fade_reach enough accelerationPoints true 128 (mkMachine 0 0) (st, m1) ->
      fade_iter enough accelerationPoints true 128 (st, m1) (st', m1') ->
      1 <= step st' /\ k st' = k st + step st' /\ k st < k st') /\
  (exists st' m' e,
      fade_loop enough 127 accelerationPoints true 128
        (fade_init accelerationPoints true 128) (mkMachine 0 0)
      = Ok (st', m', e) /\
      128 <= k st') /\
  (exists m' e,
      fade enough accelerationPoints true 128 (mkMachine 0 0)
      = Ok (tt, m', e)).
Proof.
  split; [apply le_n|].
  apply (fade_terminates enough true 128 (mkMachine 0 0)), le_n.
Defined.

(** ** A pass over a pattern *)

Lemma lookup_app_here {A} (pre : list A) x rest :
  lookup (pre ++ x :: rest) (Z.of_nat (length pre)) = Ok x.
Proof.
  unfold lookup.
  destruct (Z.of_nat (length pre) <? 0) eqn:E; [apply Z.ltb_lt in E; lia|].
  rewrite Nat2Z.id, nth_error_app2, Nat.sub_diag by apply le_n. reflexivity.
Qed.

Lemma lookup_In {A} (l : list A) i x : lookup l i = Ok x -> In x l.
Proof.
  unfold lookup. destruct (i <? 0); try discriminate.
  destruct (nth_error l (Z.to_nat i)) eqn:E; try discriminate.
  intros [= ->]. eapply nth_error_In, E.
Qed.

Lemma lookup_in_range {A} (l : list A) i :
  0 <= i < Z.of_nat (length l) -> exists x, lookup l i = Ok x.
Proof.
  intros Hi. unfold lookup. destruct (i <? 0) eqn:E; [apply Z.ltb_lt in E; lia|].
  destruct (nth_error l (Z.to_nat i)) eqn:En; [eauto|].
  apply nth_error_None in En. lia.
Qed.

Lemma read_pattern_run i j p x m :
  lookup patterns i = Ok p -> lookup p j = Ok x ->
  read_pattern i j m = Ok (x, m, [EvRead i j]).
Proof.
  intros Hp Hx. unfold read_pattern, bind, emit, lift. rewrite Hp, Hx.
  reflexivity.
Qed.

(** Every instruction returns, whatever it is, and leaves [state] at its
    sign. *)
Lemma exec_instr_total {fuel} raw state m :
  (enough <= fuel)%nat ->
  exists m' e,
    exec_instr fuel raw state m = Ok (negb (raw <? 0), m', e) /\
    reads e = [].
Proof.
  intros Hf.
  assert (H : exists s' m' e, exec_instr fuel raw state m = Ok (s', m', e) /\
                              s' = negb (raw <? 0)).
  { unfold exec_instr. destruct (Bool.eqb state (negb (raw <? 0))) eqn:E.
    - apply eqb_prop in E. subst state.
      match goal with |- context [sleep fuel ?d] =>
        destruct (sleep_total d m Hf) as (m' & w & H & _) end.
      eexists _, m', _. rewrite (bind_run _ _ _ H). cbn [ret prepend].
      split; reflexivity.
    - match goal with |- context [if ?c then _ else _] => destruct c end.
      + eexists _, _, _. split; reflexivity.
      + match goal with |- context [fade fuel _ ?s ?d] =>
          destruct (fade_shipped s d m Hf) as (m' & e & H & _) end.
        eexists _, m', _. rewrite (bind_run _ _ _ H). cbn [ret prepend].
        split; reflexivity. }
  destruct H as (s' & m' & e & H & ->). exists m', e. split; [exact H|].
  exact (exec_instr_reads_nothing _ _ _ _ _ _ _ H).
Qed.

(** A pass on a pattern that has a 0 within its first 256 entries reads it up
    to that 0 and returns. *)
Lemma pass_loop_run {fuel} i p rest :
  (enough <= fuel)%nat -> lookup patterns i = Ok p ->
  Z.of_nat (length p) <= 256 ->
  forall pre n state m,
    p = pre ++ rest -> In 0 rest -> (length rest <= n)%nat ->
    exists state' m' e,
      pass_loop fuel n i (Z.of_nat (length pre)) state m = Ok (state', m', e) /\
      reads e = pass_reads i (Z.of_nat (length pre)) rest.
Proof.
  intros Hf Hp Hlen.
  induction rest as [|x rest IH]; intros pre n state m Hsplit Hin Hn;
    [destruct Hin|].
  destruct n as [|n]; [cbn in Hn; lia|]. cbn [pass_loop pass_reads].
  assert (Hx : lookup p (Z.of_nat (length pre)) = Ok x)
    by (rewrite Hsplit; apply lookup_app_here).
  rewrite (bind_run _ _ _ (read_pattern_run i _ p x m Hp Hx)).
  destruct (x =? 0) eqn:E.
  - exists state, m, [EvRead i (Z.of_nat (length pre))]. split; reflexivity.
  - rewrite (bind_run _ _ _ (read_pattern_run i _ p x m Hp Hx)).
    destruct (exec_instr_total x state m Hf) as (m1 & e1 & H1 & Hr1).
    rewrite (bind_run _ _ _ H1).
    assert (Hin' : In 0 rest) by (destruct Hin as [->|]; [discriminate|auto]).
    assert (Hne : (1 <= length rest)%nat)
      by (destruct rest; [destruct Hin'|cbn; lia]).
    assert (Hl : Z.of_nat (length (pre ++ [x])) = Z.of_nat (length pre) + 1)
      by (rewrite length_app; cbn [length]; lia).
    assert (Hj : uint8 (Z.of_nat (length pre) + 1)
                 = Z.of_nat (length (pre ++ [x]))).
    { rewrite Hl. apply uint8_small.
      rewrite Hsplit, length_app in Hlen. cbn [length] in Hlen. lia. }
    rewrite Hj.
    destruct (IH (pre ++ [x]) n (negb (x <? 0)) m1) as (s2 & m2 & e2 & H2 & Hr2).
    + rewrite <- app_assoc. exact Hsplit.
    + exact Hin'.
    + cbn [length] in Hn. lia.
    + rewrite H2. exists s2, m2, (EvRead i (Z.of_nat (length pre))
                                   :: EvRead i (Z.of_nat (length pre))
                                   :: e1 ++ e2).
      split; [reflexivity|].
      change (reads (EvRead i (Z.of_nat (length pre))
                     :: EvRead i (Z.of_nat (length pre)) :: e1 ++ e2))
        with ((i, Z.of_nat (length pre)) :: (i, Z.of_nat (length pre))
              :: reads (e1 ++ e2)).
      rewrite reads_app, Hr1, Hr2, Hl. reflexivity.
Qed.

Lemma pass_reads_shape i j rest :
  In 0 rest ->
  Forall (fun r => fst r = i /\ j <= snd r <= j + sentinel rest)
         (pass_reads i j rest) /\
  last (pass_reads i j rest) (i, j - 1) = (i, j + sentinel rest) /\
  lookup rest (sentinel rest) = Ok 0.
Proof.
  revert j. induction rest as [|x rest IH]; intros j Hin; [destruct Hin|].
  cbn [pass_reads sentinel]. destruct (x =? 0) eqn:E.
  - apply Z.eqb_eq in E. subst x. repeat split.
    + constructor; [cbn [fst snd]; lia | constructor].
    + cbn [last]. f_equal. lia.
  - assert (Hin' : In 0 rest).
    { destruct Hin as [->|]; [discriminate | assumption]. }
    destruct (IH (j + 1) Hin') as (HF & HL & HS).
    assert (Hs : 0 <= sentinel rest).
    { clear. induction rest as [|y r IHr]; cbn [sentinel]; [lia|].
      destruct (y =? 0); lia. }
    repeat split.
    + constructor; [cbn [fst snd]; lia|]. constructor; [cbn [fst snd]; lia|].
      eapply Forall_impl; [|exact HF]. cbv beta. intros r Hr. lia.
    + rewrite !last_cons.
      destruct (pass_reads i (j + 1) rest) eqn:Er.
      * destruct rest as [|y r]; [destruct Hin'|]. cbn [pass_reads] in Er.
        destruct (y =? 0); discriminate.
      * rewrite last_cons in HL |- *. rewrite HL. f_equal. lia.
    + unfold lookup in *.
      destruct (1 + sentinel rest <? 0) eqn:E1; [apply Z.ltb_lt in E1; lia|].
      destruct (sentinel rest <? 0) eqn:E2; [apply Z.ltb_lt in E2; lia|].
      replace (Z.to_nat (1 + sentinel rest)) with (S (Z.to_nat (sentinel rest)))
        by lia.
      exact HS.
Qed.

Lemma patterns_well_formed p :
  In p patterns -> In 0 p /\ Z.of_nat (length p) <= 256.
Proof.
  intros Hp.
  assert (H : existsb (Z.eqb 0) p = true /\ Z.of_nat (length p) <= 256).
  { cbn [patterns In] in Hp.
    repeat (destruct Hp as [<- | Hp]; [split; [reflexivity | cbn; lia]|]).
    destruct Hp. }
  destruct H as [H Hl]. split; [|exact Hl].
  apply existsb_exists in H. destruct H as (x & Hx & E).
  apply Z.eqb_eq in E. subst x. exact Hx.
Qed.

(** C8: a pass of the interpreter over any pattern of the shipped library, in
    any state and on any machine, returns; it reads the pattern only at
    indices from 0 to the index of its first 0, which is inside the array,
    and the last instruction it reads is that 0. *)
Theorem pass_stops_at_sentinel fuel i state m :
  (enough <= fuel)%nat -> 0 <= i < Z.of_nat (length patterns) ->
  exists p state' m' e,
    lookup patterns i = Ok p /\
    pass fuel i state m = Ok (state', m', e) /\
    lookup p (sentinel p) = Ok 0 /\
    Forall (fun r => fst r = i /\ 0 <= snd r <= sentinel p) (reads e) /\
    last (reads e) (i, -1) = (i, sentinel p).
Proof.
  intros Hf Hi.
  destruct (lookup_in_range patterns i Hi) as (p & Hp).
  destruct (patterns_well_formed p (lookup_In _ _ _ Hp)) as [Hin Hlen].
  assert (Hn : (length p <= fuel)%nat) by (unfold enough in Hf; lia).
  destruct (pass_loop_run i p p Hf Hp Hlen [] fuel state m eq_refl Hin Hn)
    as (s' & m' & e & H & Hr).
  destruct (pass_reads_shape i 0 p Hin) as (HF & HL & HS).
  exists p, s', m', e. rewrite Hr.
  repeat split; assumption.
Qed.

Lemma pass_stops_at_sentinel_witness :
  (enough <= enough)%nat /\ 0 <= 7 < Z.of_nat (length patterns) /\
  exists p state' m' e,
    lookup patterns 7 = Ok p /\
    pass enough 7 false (mkMachine 0 0) = Ok (state', m', e) /\
    lookup p (sentinel p) = Ok 0 /\
    Forall (fun r => fst r = 7 /\ 0 <= snd r <= sentinel p) (reads e) /\
    last (reads e) (7, -1) = (7, sentinel p).
Proof.
  assert (Hi : 0 <= 7 < Z.of_nat (length patterns)) by (cbn; lia).
  split; [apply le_n|]. split; [exact Hi|].
  exact (pass_stops_at_sentinel enough 7 false (mkMachine 0 0)
           (le_n enough) Hi).
Defined.

(** ** The main loop *)

Lemma main_step_inv fuel c m c' m' e :
  main_step fuel c m = Ok (c', m', e) ->
  exists state1 m1,
    pass fuel (fst c) (snd c) m = Ok (state1, m1, e) /\
    ((ticks m1 < PATTERN_DURATION /\ c' = (fst c, state1) /\ m' = m1) \/
     (PATTERN_DURATION <= ticks m1 /\ c' = (next_i (fst c), state1) /\
      enter_pattern m1 = Ok (tt, m', []))).
Proof.
  unfold main_step. intros H. apply bind_inv in H.
  destruct H as (s1 & m1 & e1 & e2 & Hp & H & ->).
  rewrite (bind_run _ _ _ (read_ticks_run m1)) in H.
  exists s1, m1.
  destruct (ticks m1 <? PATTERN_DURATION) eqn:E.
  - apply Z.ltb_lt in E. cbn in H. injection H as <- <- <-.
    rewrite app_nil_r. auto.
  - apply Z.ltb_ge in E. cbn in H. injection H as <- <- <-.
    rewrite app_nil_r. split; [exact Hp|]. right. auto.
Qed.

(** Over 16 passes of the last pattern the counter does not follow the
    runs of the handler: the interpreter has written it. *)
Lemma interpreter_resets_ticks :
  ~ (forall c' m' e,
        main_steps enough 16 (8, false) (mkMachine 0 0) = Ok (c', m', e) ->
        ticks_follow (mkMachine 0 0) m' e).
Proof.
  intros H.
  assert (C : match main_steps enough 16 (8, false) (mkMachine 0 0) with
              | Ok (_, m', e) => (ticks m' =? 0) && (count_ticks e =? 31280)
              | _ => false
              end = true) by (vm_compute; reflexivity).
  destruct (main_steps enough 16 (8, false) (mkMachine 0 0))
    as [[[c' m'] e]| |]; try discriminate.
  specialize (H c' m' e eq_refl). unfold ticks_follow in H.
  apply andb_prop in C. destruct C as [C1 C2].
  apply Z.eqb_eq in C1, C2. cbn [ticks] in H. rewrite C1, C2 in H.
  discriminate H.
Qed.

(** C6 (amended): the interpreter keeps no baseline.  During a pass the tick
    counter moves only with the handler, which adds one to it; the test
    between two passes compares the counter itself with [PATTERN_DURATION];
    and when the test fails, the interpreter itself writes 0 into the counter
    on entering the next pattern, leaving the logical state and the
    brightness as they are. *)
Theorem pattern_entry_resets_ticks fuel c m c' m' e :
  main_step fuel c m = Ok (c', m', e) ->
  exists state1 m1,
    pass fuel (fst c) (snd c) m = Ok (state1, m1, e) /\
    uint16 (ticks m1) = uint16 (ticks m + count_ticks e) /\
    isr m1 = Ok (tt, mkMachine (uint16 (ticks m1 + 1)) (OCR0A m1), [EvTick]) /\
    ((ticks m1 < PATTERN_DURATION /\ c' = (fst c, state1) /\ m' = m1) \/
     (PATTERN_DURATION <= ticks m1 /\ c' = (next_i (fst c), state1) /\
      enter_pattern m1 = Ok (tt, m', []) /\
      ticks m' = 0 /\ OCR0A m' = OCR0A m1)).
Proof.
  intros H. apply main_step_inv in H.
  destruct H as (s1 & m1 & Hp & Hc). exists s1, m1.
  split; [exact Hp|].
  split; [exact (pass_ticks_follow _ _ _ _ _ _ _ Hp)|].
  split; [reflexivity|].
  destruct Hc as [Hc | (Hd & Hc & He)]; [left; exact Hc | right].
  repeat split; try assumption; injection He as <-; reflexivity.
Qed.

Lemma pattern_entry_resets_ticks_witness :
  exists e,
    main_step enough (5, false) (mkMachine 29900 0)
    = Ok ((6, false), mkMachine 0 0, e) /\
    exists state1 m1,
      pass enough 5 false (mkMachine 29900 0) = Ok (state1, m1, e) /\
      uint16 (ticks m1) = uint16 (29900 + count_ticks e) /\
      isr m1 = Ok (tt, mkMachine (uint16 (ticks m1 + 1)) (OCR0A m1), [EvTick]) /\
      ((ticks m1 < PATTERN_DURATION /\ (6, false) = (5, state1) /\
        mkMachine 0 0 = m1) \/
       (PATTERN_DURATION <= ticks m1 /\ (6, false) = (next_i 5, state1) /\
        enter_pattern m1 = Ok (tt, mkMachine 0 0, []) /\
        ticks (mkMachine 0 0) = 0 /\ OCR0A (mkMachine 0 0) = OCR0A m1)).
Proof.
  assert (H : exists e, main_step enough (5, false) (mkMachine 29900 0)
                        = Ok ((6, false), mkMachine 0 0, e))
    by (eexists; vm_compute; reflexivity).
  destruct H as (e & H). exists e. split; [exact H|].
  exact (pattern_entry_resets_ticks enough (5, false) (mkMachine 29900 0)
           (6, false) (mkMachine 0 0) e H).
Defined.

Lemma stays_sound fuel n i c m fired :
  stays fuel n i c m fired = true ->
  forall j, (j <= n)%nat ->
    exists sj mj ej,
      main_steps fuel j c m = Ok ((i, sj), mj, ej) /\
      ticks mj = fired + count_ticks ej /\
      fired + count_ticks ej < PATTERN_DURATION.
Proof.
  revert c m fired. induction n as [|n IH]; intros c m fired H j Hj;
    cbn [stays] in H;
    apply andb_prop in H; destruct H as [H Hn];
    apply andb_prop in H; destruct H as [H H3];
    apply andb_prop in H; destruct H as [H1 H2];
    apply Z.eqb_eq in H1, H2; apply Z.ltb_lt in H3.
  - assert (j = 0%nat) by lia. subst j.
    exists (snd c), m, []. cbn [main_steps ret]. destruct c as [ci cs].
    cbn [fst snd] in *. subst ci. change (count_ticks []) with 0.
    repeat split; lia.
  - destruct j as [|j].
    + exists (snd c), m, []. cbn [main_steps ret]. destruct c as [ci cs].
      cbn [fst snd] in *. subst ci. change (count_ticks []) with 0.
      repeat split; lia.
    + destruct (main_step fuel c m) as [[[c1 m1] e1]| |] eqn:Hs;
        try discriminate.
      destruct (IH c1 m1 (fired + count_ticks e1) Hn j ltac:(lia))
        as (sj & mj & ej & Hj1 & Hj2 & Hj3).
      exists sj, mj, (e1 ++ ej). cbn [main_steps].
      rewrite (bind_run _ _ _ Hs), Hj1, count_ticks_app.
      repeat split; lia.
Qed.

Lemma advances_sound fuel n i c m :
  advances fuel n i c m = true ->
  exists p s' m' e',
    lookup patterns i = Ok p /\
    main_steps fuel (S n) c m
    = Ok (((i + 1) mod Z.of_nat (length patterns), s'), m', e') /\
    PATTERN_DURATION <= count_ticks e' /\ ticks m' = 0 /\
    Forall (fun r => fst r = i) (reads e') /\
    snd (last (reads e') (i, -1)) = sentinel p.
Proof.
  unfold advances.
  destruct (main_steps fuel (S n) c m) as [[[[ci s'] m'] e']| |];
    try discriminate.
  destruct (lookup patterns i) as [p| |]; try discriminate.
  intros H.
  apply andb_prop in H; destruct H as [H H5];
    apply andb_prop in H; destruct H as [H H4];
    apply andb_prop in H; destruct H as [H H3];
    apply andb_prop in H; destruct H as [H1 H2].
  apply Z.eqb_eq in H1, H3, H5. apply Z.leb_le in H2. cbn [fst] in H1.
  subst ci. exists p, s', m', e'. repeat split; try assumption.
  apply Forall_forall. intros r Hr.
  apply Z.eqb_eq. exact (proj1 (forallb_forall _ _) H4 r Hr).
Qed.

Lemma switch_checked i state v :
  0 <= i < 9 ->
  exists n,
    stays enough n i (i, state) (mkMachine 0 v) 0 = true /\
    advances enough n i (i, state) (mkMachine 0 v) = true.
Proof.
  intros Hi.
  assert (C : i = 0 \/ i = 1 \/ i = 2 \/ i = 3 \/ i = 4 \/ i = 5 \/ i = 6 \/
              i = 7 \/ i = 8) by lia.
  destruct C as [-> | [-> | [-> | [-> | [-> | [-> | [-> | [-> | ->]]]]]]]];
    destruct state;
    match goal with
    | |- exists n, stays _ n ?i ?c ?m _ = true /\ _ =>
        let r := eval vm_compute in (passes_until_switch enough 400 c m) in
        match r with
        | Some ?n => exists n; split; vm_compute; reflexivity
        end
    end.
Qed.

Lemma prepend_nil {A} (r : result (A * machine * list event)) :
  prepend [] r = r.
Proof. destruct r as [[[a m] e]| |]; reflexivity. Qed.

Lemma prepend_prepend {A} e1 e2 (r : result (A * machine * list event)) :
  prepend e1 (prepend e2 r) = prepend (e1 ++ e2) r.
Proof. destruct r as [[[a m] e]| |]; cbn [prepend]; rewrite ?app_assoc; reflexivity. Qed.

Lemma main_steps_add fuel a b c m :
  main_steps fuel (a + b) c m
  = (c' <- main_steps fuel a c ;; main_steps fuel b c') m.
Proof.
  revert c m. induction a as [|a IH]; intros c m; cbn [Nat.add main_steps].
  - unfold bind, ret. rewrite prepend_nil. reflexivity.
  - unfold bind.
    destruct (main_step fuel c m) as [[[c1 m1] e1]| |]; try reflexivity.
    rewrite IH. unfold bind.
    destruct (main_steps fuel a c1 m1) as [[[c2 m2] e2]| |]; try reflexivity.
    cbn [prepend]. rewrite prepend_prepend. reflexivity.
Qed.

Lemma switch_after_budget fuel i state m :
  (enough <= fuel)%nat -> 0 <= i < Z.of_nat (length patterns) ->
  ticks m = 0 ->
  exists n p,
    lookup patterns i = Ok p /\
    (forall j, (j <= n)%nat ->
       exists sj mj ej,
         main_steps fuel j (i, state) m = Ok ((i, sj), mj, ej) /\
         ticks mj = count_ticks ej /\
         count_ticks ej < PATTERN_DURATION) /\
    exists s' m' e',
      main_steps fuel (S n) (i, state) m
      = Ok (((i + 1) mod Z.of_nat (length patterns), s'), m', e') /\
      PATTERN_DURATION <= count_ticks e' /\ ticks m' = 0 /\
      Forall (fun r => fst r = i) (reads e') /\
      snd (last (reads e') (i, -1)) = sentinel p.
Proof.
  intros Hf Hi Ht. destruct m as [t v]. cbn [ticks] in Ht. subst t.
  destruct (switch_checked i state v Hi) as (n & Hs & Ha).
  apply advances_sound in Ha.
  destruct Ha as (p & s' & m' & e' & Hp & Hrun & Hrest).
  exists n, p. split; [exact Hp|]. split.
  - intros j Hj.
    destruct (stays_sound enough n i (i, state) (mkMachine 0 v) 0 Hs j Hj)
      as (sj & mj & ej & H1 & H2 & H3).
    exists sj, mj, ej. split; [|lia].
    exact (main_steps_mono enough fuel j (i, state) Hf _ _ H1).
  - exists s', m', e'. split; [|exact Hrest].
    exact (main_steps_mono enough fuel (S n) (i, state) Hf _ _ Hrun).
Qed.

(** The interpreter goes round the library for ever: from the entry of
    pattern [i] it comes, for every [r], to the entry of the pattern [r]
    places further, cyclically. *)
Lemma patterns_cycle fuel r :
  (enough <= fuel)%nat ->
  forall i state m,
    0 <= i < Z.of_nat (length patterns) -> ticks m = 0 ->
    exists n s' m' e,
      main_steps fuel n (i, state) m
      = Ok (((i + Z.of_nat r) mod Z.of_nat (length patterns), s'), m', e) /\
      ticks m' = 0.
Proof.
  intros Hf. induction r as [|r IH]; intros i state m Hi Ht.
  - exists 0%nat, state, m, []. cbn [main_steps ret].
    rewrite Z.add_0_r, Z.mod_small by exact Hi. auto.
  - destruct (switch_after_budget fuel i state m Hf Hi Ht)
      as (n & p & _ & _ & s1 & m1 & e1 & H1 & _ & Ht1 & _).
    assert (Hi1 : 0 <= (i + 1) mod Z.of_nat (length patterns)
                  < Z.of_nat (length patterns))
      by (apply Z.mod_pos_bound; cbn; lia).
    destruct (IH _ s1 m1 Hi1 Ht1) as (n2 & s2 & m2 & e2 & H2 & Ht2).
    exists (S n + n2)%nat, s2, m2, (e1 ++ e2).
    split; [|exact Ht2].
    rewrite main_steps_add, (bind_run _ _ _ H1), H2. cbn [prepend].
    rewrite Zplus_mod_idemp_l.
    replace (i + 1 + Z.of_nat r) with (i + Z.of_nat (S r)) by lia.
    reflexivity.
Qed.

(** C7: from the entry of pattern [i] (the counter just set to 0), in either
    logical state, the interpreter makes a number of complete passes over
    pattern [i]; at every pass boundary where fewer than 30000 ticks have
    fired since the entry it stays on pattern [i]; at the first boundary
    where at least 30000 have fired it goes to pattern [(i + 1) mod 9], back
    to 0 after the last, with the counter at 0 again.  Until then it reads
    pattern [i] only, and the last instruction read before the switch is the
    sentinel of pattern [i]: the switch occurs at a pass boundary.  This
    goes on for ever: for every [r] the interpreter comes to the entry of
    pattern [(i + r) mod 9]. *)
Theorem pattern_switch fuel i state m :
  (enough <= fuel)%nat -> 0 <= i < Z.of_nat (length patterns) ->
  ticks m = 0 ->
  (exists n p,
      lookup patterns i = Ok p /\
      (forall j, (j <= n)%nat ->
         exists sj mj ej,
           main_steps fuel j (i, state) m = Ok ((i, sj), mj, ej) /\
           ticks mj = count_ticks ej /\
           count_ticks ej < PATTERN_DURATION) /\
      exists s' m' e',
        main_steps fuel (S n) (i, state) m
        = Ok (((i + 1) mod Z.of_nat (length patterns), s'), m', e') /\
        PATTERN_DURATION <= count_ticks e' /\ ticks m' = 0 /\
        Forall (fun r => fst r = i) (reads e') /\
        snd (last (reads e') (i, -1)) = sentinel p) /\
  (forall r : nat,
      exists n s' m' e,
        main_steps fuel n (i, state) m
        = Ok (((i + Z.of_nat r) mod Z.of_nat (length patterns), s'), m', e) /\
        ticks m' = 0).
Proof.
  intros Hf Hi Ht. split.
  - exact (switch_after_budget fuel i state m Hf Hi Ht).
  - intros r. exact (patterns_cycle fuel r Hf i state m Hi Ht).
Qed.

Lemma pattern_switch_witness :
  (enough <= enough)%nat /\ 0 <= 8 < Z.of_nat (length patterns) /\
  ticks (mkMachine 0 0) = 0 /\
  (exists n p,
      lookup patterns 8 = Ok p /\
      (forall j, (j <= n)%nat ->
         exists sj mj ej,
           main_steps enough j (8, false) (mkMachine 0 0)
           = Ok ((8, sj), mj, ej) /\
           ticks mj = count_ticks ej /\
           count_ticks ej < PATTERN_DURATION) /\
      exists s' m' e',
        main_steps enough (S n) (8, false) (mkMachine 0 0)
        = Ok (((8 + 1) mod Z.of_nat (length patterns), s'), m', e') /\
        PATTERN_DURATION <= count_ticks e' /\ ticks m' = 0 /\
        Forall (fun r => fst r = 8) (reads e') /\
        snd (last (reads e') (8, -1)) = sentinel p) /\
  (forall r : nat,
      exists n s' m' e,
        main_steps enough n (8, false) (mkMachine 0 0)
        = Ok (((8 + Z.of_nat r) mod Z.of_nat (length patterns), s'), m', e) /\
        ticks m' = 0).
Proof.
  assert (Hi : 0 <= 8 < Z.of_nat (length patterns)) by (cbn; lia).
  split; [apply le_n|]. split; [exact Hi|]. split; [reflexivity|].
  exact (pattern_switch enough 8 false (mkMachine 0 0) (le_n enough) Hi
           eq_refl).
Defined.

(** * Further properties of the code *)

(** ** [sleep] *)

Lemma sleep_at_any_fuel fuel d m r :
  sleep fuel d m = Ok r -> sleep (Nat.max fuel enough) d m = Ok r.
Proof. apply (sleep_mono d (Nat.le_max_l fuel enough)). Qed.

(** X1: without a wrap of the 16-bit counter [sleep(delay)] returns after
    exactly [delay] ticks, and after one tick when [delay] is 0: the handler
    runs that many times, the counter ends that much further and the compare
    register is untouched. *)
Theorem sleep_lasts_delay fuel d m :
  (enough <= fuel)%nat ->
  0 <= d < 65536 -> 0 <= ticks m -> ticks m + Z.max d 1 < 65536 ->
  sleep fuel d m
  = Ok (tt, mkMachine (ticks m + Z.max d 1) (OCR0A m),
        EvSleep d :: repeat EvTick (Z.to_nat (Z.max d 1))) /\
  count_ticks (EvSleep d :: repeat EvTick (Z.to_nat (Z.max d 1)))
  = Z.max d 1.
Proof.
  intros Hf Hd Ht Hw. split; [exact (sleep_exact fuel d m Hf Hd Ht Hw)|].
  change (count_ticks (repeat EvTick (Z.to_nat (Z.max d 1))) = Z.max d 1).
  destruct (views_of_ticks (Z.to_nat (Z.max d 1))) as (_ & _ & _ & ->). lia.
Qed.

Lemma sleep_lasts_delay_witness :
  (enough <= enough)%nat /\ 0 <= 50 < 65536 /\
  0 <= ticks (mkMachine 7 3) /\
  ticks (mkMachine 7 3) + Z.max 50 1 < 65536 /\
  sleep enough 50 (mkMachine 7 3)
  = Ok (tt, mkMachine (ticks (mkMachine 7 3) + Z.max 50 1)
              (OCR0A (mkMachine 7 3)),
        EvSleep 50 :: repeat EvTick (Z.to_nat (Z.max 50 1))) /\
  count_ticks (EvSleep 50 :: repeat EvTick (Z.to_nat (Z.max 50 1)))
  = Z.max 50 1.
Proof.
  assert (H1 : 0 <= 50 < 65536) by lia.
  assert (H2 : 0 <= ticks (mkMachine 7 3)) by (cbn; lia).
  assert (H3 : ticks (mkMachine 7 3) + Z.max 50 1 < 65536) by (cbn; lia).
  split; [apply le_n|]. split; [exact H1|]. split; [exact H2|].
  split; [exact H3|].
  exact (sleep_lasts_delay enough 50 (mkMachine 7 3) (le_n enough) H1 H2 H3).
Defined.

(** X2: when [ticks + delay] passes 65535 the deadline [end] wraps below the
    counter, and [sleep] returns after a single tick, however long the delay
    asked for. *)
Theorem sleep_cut_short_by_wrap fuel d m :
  0 <= d < 65536 -> 0 <= ticks m < 65535 -> 65536 <= ticks m + d ->
  sleep (S fuel) d m
  = Ok (tt, mkMachine (ticks m + 1) (OCR0A m), [EvSleep d; EvTick]).
Proof.
  intros Hd Ht Hw. unfold sleep. rewrite (uint16_small d) by lia.
  unfold bind at 1. unfold emit. unfold bind at 1. unfold read_ticks at 1.
  cbn [sleep_loop]. rewrite (bind_run isr _ m (isr_run m)).
  rewrite (bind_run read_ticks _ _ (read_ticks_run _)). cbn [ticks].
  rewrite (uint16_small (ticks m + 1)) by lia.
  assert (He : uint16 (ticks m + d) = ticks m + d - 65536).
  { unfold uint16. symmetry. apply (Z.mod_unique _ _ 1); lia. }
  rewrite He.
  destruct (ticks m + d - 65536 >? ticks m + 1) eqn:E; [lia|].
  reflexivity.
Qed.

Lemma sleep_cut_short_by_wrap_witness :
  0 <= 1000 < 65536 /\ 0 <= ticks (mkMachine 65000 0) < 65535 /\
  65536 <= ticks (mkMachine 65000 0) + 1000 /\
  sleep 1 1000 (mkMachine 65000 0)
  = Ok (tt, mkMachine (ticks (mkMachine 65000 0) + 1)
              (OCR0A (mkMachine 65000 0)), [EvSleep 1000; EvTick]).
Proof.
  split; [lia|]. split; [cbn; lia|]. split; [cbn; lia|].
  apply (sleep_cut_short_by_wrap 0 1000 (mkMachine 65000 0)); cbn; lia.
Defined.

Lemma sleep_loop_wakes n e1 m1 m2 w1 :
  sleep_loop n e1 m1 = Ok (tt, m2, repeat EvTick w1) -> (w1 <= n)%nat.
Proof.
  revert m1 m2 w1. induction n as [|n IH]; intros m1 m2 w1 H; [discriminate|].
  cbn [sleep_loop] in H. rewrite (bind_run isr _ m1 (isr_run m1)) in H.
  rewrite (bind_run read_ticks _ _ (read_ticks_run _)) in H.
  destruct (e1 >? _).
  - destruct (sleep_loop n e1 _) as [[[u m3] e3]| |] eqn:E;
      try discriminate.
    cbn [prepend app] in H. destruct u.
    destruct w1 as [|w1]; [discriminate|].
    cbn [repeat] in H. injection H as _ He.
    rewrite He in E. apply IH in E. lia.
  - cbn [ret prepend app] in H.
    destruct w1 as [|[|w1]]; try discriminate. lia.
Qed.

Lemma sleep_wakes n d m m' x w :
  sleep n d m = Ok (tt, m', EvSleep x :: repeat EvTick w) -> (w <= n)%nat.
Proof.
  unfold sleep. intros H.
  unfold bind at 1 in H. unfold emit in H. unfold bind at 1 in H.
  unfold read_ticks at 1 in H. cbn [prepend app] in H.
  destruct (sleep_loop n _ m) as [[[u m3] e3]| |] eqn:E; try discriminate.
  cbn [prepend app] in H. destruct u. injection H as _ _ He.
  rewrite He in E. exact (sleep_loop_wakes _ _ _ _ _ E).
Qed.

(** X3: [sleep] returns for every delay and every value of the counter, also
    across a wrap of the counter: the handler runs at least once and at most
    65536 times, the counter follows it, and the compare register is
    untouched. *)
Theorem sleep_returns fuel d m :
  (enough <= fuel)%nat ->
  exists m' w,
    sleep fuel d m = Ok (tt, m', EvSleep (uint16 d) :: repeat EvTick w) /\
    1 <= Z.of_nat w <= 65536 /\
    uint16 (ticks m') = uint16 (ticks m + Z.of_nat w) /\
    OCR0A m' = OCR0A m.
Proof.
  intros Hf.
  assert (Hle : (enough <= enough)%nat) by apply le_n.
  destruct (sleep_total d m Hle) as (m' & w & H & Ho & Hw & _).
  assert (Hk : ticks_follow m m' (EvSleep (uint16 d) :: repeat EvTick w)).
  { apply (keeps_sleep ticks_follow ticks_follow_nil ticks_follow_app
             ticks_follow_isr
             (fun n => ticks_follow_emit (EvSleep n) ltac:(discriminate))
             enough d m tt m' _ H). }
  unfold ticks_follow in Hk.
  change (count_ticks (EvSleep (uint16 d) :: repeat EvTick w))
    with (count_ticks (repeat EvTick w)) in Hk.
  destruct (views_of_ticks w) as (_ & _ & _ & Hc). rewrite Hc in Hk.
  pose proof (sleep_wakes _ _ _ _ _ _ H) as Hb.
  exists m', w. split; [exact (sleep_mono d Hf m _ H)|].
  repeat split; try assumption; unfold enough in Hb; lia.
Qed.

Lemma sleep_returns_witness :
  (enough <= enough)%nat /\
  exists m' w,
    sleep enough 3 (mkMachine 65535 9)
    = Ok (tt, m', EvSleep (uint16 3) :: repeat EvTick w) /\
    1 <= Z.of_nat w <= 65536 /\
    uint16 (ticks m') = uint16 (ticks (mkMachine 65535 9) + Z.of_nat w) /\
    OCR0A m' = OCR0A (mkMachine 65535 9).
Proof.
  split; [apply le_n|].
  apply (sleep_returns enough 3 (mkMachine 65535 9)), le_n.
Defined.

Lemma sleep_inv fuel d m m' e :
  sleep fuel d m = Ok (tt, m', e) ->
  exists w, e = EvSleep (uint16 d) :: repeat EvTick w /\ OCR0A m' = OCR0A m.
Proof.
  intros H. apply sleep_at_any_fuel in H.
  destruct (sleep_total d m (Nat.le_max_r fuel enough))
    as (m1 & w & H1 & Ho & _).
  rewrite H1 in H. injection H as <- <-. exists w. auto.
Qed.

Lemma sleep_uint16 fuel d : sleep fuel (uint16 d) = sleep fuel d.
Proof. unfold sleep, uint16. rewrite Zmod_mod. reflexivity. Qed.

(** ** One instruction *)

Lemma exec_instr_state fuel raw state m s' m' e :
  exec_instr fuel raw state m = Ok (s', m', e) -> s' = negb (raw <? 0).
Proof.
  unfold exec_instr. destruct (Bool.eqb state (negb (raw <? 0))) eqn:E;
    intros H; apply bind_inv in H;
    destruct H as (u & m1 & e1 & e2 & _ & H & _); injection H as <- _ _.
  - apply eqb_prop, E.
  - reflexivity.
Qed.

(** X4: an instruction of magnitude below 128 whose sign differs from the
    logical state is an instant transition: exactly one write of the compare
    register, of 127 for a positive instruction and of 0 for a negative one,
    no sleep and no tick; the state becomes the sign of the instruction. *)
Theorem instant_transition fuel raw state m :
  -128 < raw < 128 -> state = (raw <? 0) ->
  exec_instr fuel raw state m
  = Ok (negb state, mkMachine (ticks m) (if state then 0 else 127),
        [EvPwm (if state then 0 else 127)]).
Proof.
  intros Hr ->. unfold exec_instr.
  destruct (raw <? 0) eqn:E; cbn [negb Bool.eqb].
  - apply Z.ltb_lt in E.
    assert (Hi : int16 (- raw) = - raw)
      by (unfold int16; rewrite Z.mod_small by lia; lia).
    rewrite Hi. destruct (- raw <? 128) eqn:E2; [reflexivity|].
    apply Z.ltb_ge in E2. lia.
  - apply Z.ltb_ge in E. destruct (raw <? 128) eqn:E2; [reflexivity|].
    apply Z.ltb_ge in E2. lia.
Qed.

Lemma instant_transition_witness :
  -128 < -1 < 128 /\ true = (-1 <? 0) /\
  exec_instr 0 (-1) true (mkMachine 550 125)
  = Ok (negb true, mkMachine (ticks (mkMachine 550 125)) 0, [EvPwm 0]).
Proof.
  split; [lia|]. split; [reflexivity|].
  apply (instant_transition 0 (-1) true (mkMachine 550 125));
    [lia | reflexivity].
Defined.

(** X5: an instruction whose sign is the logical state is a pure delay: it
    returns after one [sleep] of its magnitude, during which the handler
    runs at least once, with no write of the compare register, which keeps
    its value, and with the state as it was. *)
Theorem same_sign_is_delay fuel raw state m :
  (enough <= fuel)%nat ->
  -32768 < raw <= 32767 -> state = negb (raw <? 0) ->
  exists m' w,
    exec_instr fuel raw state m
    = Ok (state, m', EvSleep (Z.abs raw) :: repeat EvTick w) /\
    (1 <= w)%nat /\ OCR0A m' = OCR0A m /\
    pwm_writes (EvSleep (Z.abs raw) :: repeat EvTick w) = [] /\
    sleeps (EvSleep (Z.abs raw) :: repeat EvTick w) = [Z.abs raw].
Proof.
  intros Hf Hr Hs.
  assert (Hd : (if raw <? 0 then int16 (- raw) else raw) = Z.abs raw).
  { destruct (raw <? 0) eqn:E.
    - apply Z.ltb_lt in E. unfold int16. rewrite Z.mod_small by lia. lia.
    - apply Z.ltb_ge in E. lia. }
  destruct (sleep_total (Z.abs raw) m Hf) as (m' & w & H & Ho & Hw & _).
  rewrite uint16_small in H by lia.
  exists m', w. unfold exec_instr. rewrite <- Hs, eqb_reflx, Hd.
  rewrite (bind_run _ _ _ H). cbn [ret prepend]. rewrite app_nil_r.
  destruct (views_of_ticks w) as (V1 & V2 & _).
  split; [reflexivity|]. split; [exact Hw|]. split; [exact Ho|].
  split; [exact V1|].
  change (Z.abs raw :: sleeps (repeat EvTick w) = [Z.abs raw]).
  rewrite V2. reflexivity.
Qed.

Lemma same_sign_is_delay_witness :
  (enough <= enough)%nat /\ -32768 < -500 <= 32767 /\
  false = negb (-500 <? 0) /\
  exists m' w,
    exec_instr enough (-500) false (mkMachine 10 1)
    = Ok (false, m', EvSleep (Z.abs (-500)) :: repeat EvTick w) /\
    (1 <= w)%nat /\ OCR0A m' = OCR0A (mkMachine 10 1) /\
    pwm_writes (EvSleep (Z.abs (-500)) :: repeat EvTick w) = [] /\
    sleeps (EvSleep (Z.abs (-500)) :: repeat EvTick w) = [Z.abs (-500)].
Proof.
  assert (H1 : -32768 < -500 <= 32767) by lia.
  assert (H2 : false = negb (-500 <? 0)) by reflexivity.
  split; [apply le_n|]. split; [exact H1|]. split; [exact H2|].
  exact (same_sign_is_delay enough (-500) false (mkMachine 10 1)
           (le_n enough) H1 H2).
Defined.

(** ** Relations kept from the instruction up *)

Section KeepsInstr.
Variable R : machine -> machine -> list event -> Prop.
Hypothesis R_nil : forall m, R m m [].
Hypothesis R_app :
  forall m m1 m2 e1 e2, R m m1 e1 -> R m1 m2 e2 -> R m m2 (e1 ++ e2).
Hypothesis R_sleep : forall fuel d, keeps R (sleep fuel d).
Hypothesis R_pwm : forall v, keeps R (setPwmDutyCycle v).

Lemma instr_fade_body fuel tbl sign d st :
  keeps R (fade_body fuel tbl sign d st).
Proof.
  unfold fade_body.
  apply (keeps_bind R R_app); [apply (keeps_lift R R_nil)|]. intros vs.
  apply (keeps_bind R R_app); [apply R_pwm|]. intros _.
  apply (keeps_bind R R_app); [|intros r; apply (keeps_ret R R_nil)].
  unfold fade_sleep. destruct (remainder st =? 0);
    (apply (keeps_bind R R_app); [apply R_sleep|]);
    intros _; apply (keeps_ret R R_nil).
Qed.

Lemma instr_fade_loop fuel n tbl sign d st :
  keeps R (fade_loop fuel n tbl sign d st).
Proof.
  revert st. induction n as [|n IH]; intros st; cbn [fade_loop];
    destruct (k st <? 128); try apply (keeps_ret R R_nil).
  - intros m a m' e H. discriminate.
  - apply (keeps_bind R R_app); [apply instr_fade_body | exact IH].
Qed.

Lemma instr_fade fuel tbl sign d : keeps R (fade fuel tbl sign d).
Proof.
  unfold fade. apply (keeps_bind R R_app); [apply instr_fade_loop|].
  intros _. apply (keeps_ret R R_nil).
Qed.

Lemma instr_exec_instr fuel raw state : keeps R (exec_instr fuel raw state).
Proof.
  unfold exec_instr. destruct (Bool.eqb state (negb (raw <? 0))).
  - apply (keeps_bind R R_app); [apply R_sleep|].
    intros _. apply (keeps_ret R R_nil).
  - apply (keeps_bind R R_app); [|intros _; apply (keeps_ret R R_nil)].
    destruct (_ <? 128); [apply R_pwm | apply instr_fade].
Qed.
End KeepsInstr.

Section KeepsPass.
Variable R : machine -> machine -> list event -> Prop.
Hypothesis R_nil : forall m, R m m [].
Hypothesis R_app :
  forall m m1 m2 e1 e2, R m m1 e1 -> R m1 m2 e2 -> R m m2 (e1 ++ e2).
Hypothesis R_instr : forall fuel raw state, keeps R (exec_instr fuel raw state).
Hypothesis R_read_event : forall i j, keeps R (emit (EvRead i j)).

Lemma instr_pass_loop fuel n i j state : keeps R (pass_loop fuel n i j state).
Proof.
  revert j state. induction n as [|n IH]; intros j state; cbn [pass_loop].
  - intros m a m' e H. discriminate.
  - apply (keeps_bind R R_app);
      [apply (keeps_read_pattern R R_nil R_app R_read_event)|].
    intros c. destruct (c =? 0); [apply (keeps_ret R R_nil)|].
    apply (keeps_bind R R_app);
      [apply (keeps_read_pattern R R_nil R_app R_read_event)|].
    intros raw. apply (keeps_bind R R_app); [apply R_instr|].
    intros state'. apply IH.
Qed.

Lemma instr_pass fuel i state : keeps R (pass fuel i state).
Proof. apply instr_pass_loop. Qed.

Hypothesis R_enter : keeps R enter_pattern.

Lemma instr_main_step fuel c : keeps R (main_step fuel c).
Proof.
  unfold main_step. apply (keeps_bind R R_app); [apply instr_pass|].
  intros s1. apply (keeps_bind R R_app); [apply (keeps_read_ticks R R_nil)|].
  intros t. destruct (t <? PATTERN_DURATION); [apply (keeps_ret R R_nil)|].
  apply (keeps_bind R R_app); [apply R_enter|].
  intros _. apply (keeps_ret R R_nil).
Qed.

Lemma instr_main_steps fuel n c : keeps R (main_steps fuel n c).
Proof.
  revert c. induction n as [|n IH]; intros c; cbn [main_steps].
  - apply (keeps_ret R R_nil).
  - apply (keeps_bind R R_app); [apply instr_main_step | exact IH].
Qed.
End KeepsPass.

(** ** The time a pass takes *)

Lemma sum_app l1 l2 : sum (l1 ++ l2) = sum l1 + sum l2.
Proof.
  induction l1 as [|x l1 IH]; cbn [app sum fold_right]; [reflexivity|].
  fold (sum (l1 ++ l2)). fold (sum l1). lia.
Qed.

Lemma asked_ticks_app e1 e2 :
  asked_ticks (e1 ++ e2) = asked_ticks e1 + asked_ticks e2.
Proof. unfold asked_ticks. rewrite sleeps_app, map_app, sum_app. reflexivity. Qed.

Lemma asked_ticks_nonneg e : 0 <= asked_ticks e.
Proof.
  unfold asked_ticks. induction (sleeps e) as [|x l IH];
    cbn [map sum fold_right]; [lia|].
  fold (sum (map (fun n => Z.max n 1) l)). lia.
Qed.

Lemma ticks_as_asked_nil m : ticks_as_asked m m [].
Proof. intros _ _. split; reflexivity || (cbn; lia). Qed.

Lemma ticks_as_asked_app m m1 m2 e1 e2 :
  ticks_as_asked m m1 e1 -> ticks_as_asked m1 m2 e2 ->
  ticks_as_asked m m2 (e1 ++ e2).
Proof.
  unfold ticks_as_asked. intros H1 H2 Ht Hw.
  rewrite asked_ticks_app in *. rewrite count_ticks_app.
  pose proof (asked_ticks_nonneg e1). pose proof (asked_ticks_nonneg e2).
  destruct (H1 Ht ltac:(lia)) as [T1 C1].
  destruct (H2 ltac:(lia) ltac:(lia)) as [T2 C2]. lia.
Qed.

Lemma ticks_as_asked_sleep fuel d : keeps ticks_as_asked (sleep fuel d).
Proof.
  intros m [] m' e H Ht Hw.
  destruct (sleep_inv _ _ _ _ _ H) as (w & He & _).
  assert (Ha : asked_ticks e = Z.max (uint16 d) 1).
  { rewrite He. unfold asked_ticks.
    change (sleeps (EvSleep (uint16 d) :: repeat EvTick w))
      with (uint16 d :: sleeps (repeat EvTick w)).
    destruct (views_of_ticks w) as (_ & -> & _). cbn [map sum fold_right].
    lia. }
  rewrite Ha in *. pose proof (uint16_range d) as Hd.
  rewrite <- sleep_uint16 in H. apply sleep_at_any_fuel in H.
  rewrite (sleep_exact _ _ m (Nat.le_max_r fuel enough) Hd Ht Hw) in H.
  injection H as <- <-. split; [reflexivity|].
  change (count_ticks (repeat EvTick (Z.to_nat (Z.max (uint16 d) 1)))
          = Z.max (uint16 d) 1).
  destruct (views_of_ticks (Z.to_nat (Z.max (uint16 d) 1)))
    as (_ & _ & _ & ->). lia.
Qed.

Lemma ticks_as_asked_pwm v : keeps ticks_as_asked (setPwmDutyCycle v).
Proof.
  intros m a m' e H _ _. injection H as _ <- <-.
  split; [cbn; lia | reflexivity].
Qed.

Lemma ticks_as_asked_read i j : keeps ticks_as_asked (emit (EvRead i j)).
Proof.
  intros m a m' e H _ _. injection H as _ <- <-.
  split; [cbn; lia | reflexivity].
Qed.

(** ** The brightness written *)

Lemma fade_shipped_inv fuel sign d m m' e :
  fade fuel accelerationPoints sign d m = Ok (tt, m', e) ->
  pwm_writes e = levels sign.
Proof.
  intros H.
  apply (fade_mono fuel (Nat.max fuel enough) accelerationPoints sign d
           (Nat.le_max_l fuel enough)) in H.
  destruct (fade_shipped sign d m (Nat.le_max_r fuel enough))
    as (m1 & e1 & H1 & Hp & _).
  rewrite H1 in H. injection H as _ <-. exact Hp.
Qed.

Lemma levels_in_range sign : Forall (fun v => 0 <= v <= 127) (levels sign).
Proof.
  destruct sign; cbn [levels]; repeat (constructor; [lia|]); constructor.
Qed.

Lemma exec_instr_writes_levels fuel raw state :
  keeps writes_levels (exec_instr fuel raw state).
Proof.
  intros m s' m' e H. unfold writes_levels. unfold exec_instr in H.
  destruct (Bool.eqb state (negb (raw <? 0))).
  - apply bind_inv in H. destruct H as ([] & m1 & e1 & e2 & H & Hr & ->).
    injection Hr as _ _ <-. rewrite app_nil_r.
    destruct (sleep_inv _ _ _ _ _ H) as (w & -> & _).
    change (Forall (fun v => 0 <= v <= 127) (pwm_writes (repeat EvTick w))).
    destruct (views_of_ticks w) as (-> & _). constructor.
  - apply bind_inv in H. destruct H as ([] & m1 & e1 & e2 & H & Hr & ->).
    injection Hr as _ _ <-. rewrite app_nil_r.
    destruct (_ <? 128).
    + injection H as _ <-. destruct (negb (raw <? 0));
        (constructor; [cbn; lia | constructor]).
    + rewrite (fade_shipped_inv _ _ _ _ _ _ H). apply levels_in_range.
Qed.

Lemma writes_levels_app m m1 m2 e1 e2 :
  writes_levels m m1 e1 -> writes_levels m1 m2 e2 ->
  writes_levels m m2 (e1 ++ e2).
Proof.
  unfold writes_levels. intros H1 H2. rewrite pwm_writes_app.
  apply Forall_app. auto.
Qed.

Lemma exec_instr_pwm_follows fuel raw state :
  keeps pwm_follows (exec_instr fuel raw state).
Proof.
  apply (keeps_exec_instr pwm_follows pwm_follows_nil pwm_follows_app
           pwm_follows_isr
           (fun n => pwm_follows_emit (EvSleep n) ltac:(discriminate))
           pwm_follows_pwm).
Qed.

Lemma last_in_range (l : list Z) d :
  Forall (fun v => 0 <= v <= 127) l -> 0 <= d <= 127 ->
  0 <= last l d <= 127.
Proof.
  intros H. revert d. induction H as [|x l Hx Hl IH]; intros d Hd.
  - exact Hd.
  - rewrite last_cons. apply IH, Hx.
Qed.

(** X7: whatever the number of passes, the interpreter writes only levels
    0..127 to the compare register, and the register, changed by nothing
    else, holds such a level whenever it held one at the start. *)
Theorem brightness_is_a_level fuel n c m c' m' e :
  main_steps fuel n c m = Ok (c', m', e) -> 0 <= OCR0A m <= 127 ->
  Forall (fun v => 0 <= v <= 127) (pwm_writes e) /\
  OCR0A m' = last (pwm_writes e) (OCR0A m) /\
  0 <= OCR0A m' <= 127.
Proof.
  intros H Ho.
  assert (W : writes_levels m m' e).
  { apply (instr_main_steps writes_levels (fun _ => Forall_nil _)
             writes_levels_app exec_instr_writes_levels
             (fun i j m0 a m1 e0 H0 =>
                ltac:(injection H0 as _ _ <-; constructor))
             (fun m0 a m1 e0 H0 =>
                ltac:(injection H0 as _ _ <-; constructor))
             fuel n c m c' m' e H). }
  assert (P : pwm_follows m m' e).
  { apply (instr_main_steps pwm_follows pwm_follows_nil pwm_follows_app
             exec_instr_pwm_follows
             (fun i j => pwm_follows_emit (EvRead i j) ltac:(discriminate))
             (fun m0 a m1 e0 H0 =>
                ltac:(injection H0 as _ <- <-; reflexivity))
             fuel n c m c' m' e H). }
  split; [exact W|]. split; [exact P|].
  rewrite P. apply last_in_range; assumption.
Qed.

Lemma brightness_is_a_level_witness :
  main_steps enough 1 (5, false) (mkMachine 7 3)
  = Ok ((5, false), mkMachine 107 0, pass5_events) /\
  0 <= OCR0A (mkMachine 7 3) <= 127 /\
  Forall (fun v => 0 <= v <= 127) (pwm_writes pass5_events) /\
  OCR0A (mkMachine 107 0)
  = last (pwm_writes pass5_events) (OCR0A (mkMachine 7 3)) /\
  0 <= OCR0A (mkMachine 107 0) <= 127.
Proof.
  assert (H1 : main_steps enough 1 (5, false) (mkMachine 7 3)
               = Ok ((5, false), mkMachine 107 0, pass5_events))
    by (vm_compute; reflexivity).
  assert (H2 : 0 <= OCR0A (mkMachine 7 3) <= 127) by (cbn; lia).
  split; [exact H1|]. split; [exact H2|].
  exact (brightness_is_a_level enough 1 (5, false) (mkMachine 7 3) (5, false)
           (mkMachine 107 0) pass5_events H1 H2).
Defined.

(** ** The fade on any table *)

Lemma fade_loop_sleeps fuel n tbl sign d st m st' m' e :
  fade_loop fuel n tbl sign d st m = Ok (st', m', e) ->
  sleeps e = fade_delays d (remainder st) (length (pwm_writes e)).
Proof.
  revert st m e. induction n as [|n IH]; intros st m e;
    cbn [fade_loop]; destruct (k st <? 128); try discriminate;
    try (intros H; injection H as _ _ <-; reflexivity).
  intros H. apply bind_inv in H.
  destruct H as (st1 & m1 & e1 & e2 & Hb & Hl & ->).
  destruct (fade_body_events _ _ _ _ _ _ _ _ _ Hb)
    as (v & x & w & _ & -> & Hx & Hr & _).
  apply IH in Hl. destruct (views_of_ticks w) as (V1 & V2 & _).
  change (x :: sleeps (repeat EvTick w ++ e2)
          = fade_delays d (remainder st)
              (length (uint16 v :: pwm_writes (repeat EvTick w ++ e2)))).
  rewrite sleeps_app, pwm_writes_app, V1, V2, Hl, Hr. cbn [app length].
  cbn [fade_delays] in *.
  destruct (remainder st =? 0); injection Hx as <-; reflexivity.
Qed.

Lemma fade_delays_closed d r c :
  0 <= Z.quot d 64 -> Z.quot d 64 + 1 < 65536 -> 0 <= r < 256 ->
  fade_delays d r c
  = repeat (Z.quot d 64 + 1) (Nat.min (Z.to_nat r) c)
    ++ repeat (Z.quot d 64) (c - Z.to_nat r).
Proof.
  intros Hq1 Hq2. revert r. induction c as [|c IH]; intros r Hr.
  - rewrite Nat.min_0_r. reflexivity.
  - cbn [fade_delays]. destruct (r =? 0) eqn:E.
    + apply Z.eqb_eq in E. subst r. rewrite IH by lia.
      rewrite uint16_small by lia. change (Z.to_nat 0) with 0%nat.
      rewrite !Nat.sub_0_r. reflexivity.
    + apply Z.eqb_neq in E. rewrite uint8_small by lia.
      rewrite IH by lia. rewrite uint16_small by lia.
      replace (Z.to_nat r) with (S (Z.to_nat (r - 1))) by lia.
      reflexivity.
Qed.

Lemma fade_loop_first_write fuel n tbl sign d m st' m' e :
  fade_loop fuel n tbl sign d (fade_init tbl sign d) m = Ok (st', m', e) ->
  hd_error (pwm_writes e) = Some (if sign then 0 else 127).
Proof.
  intros Hl.
  destruct n as [|n]; cbn [fade_loop] in Hl;
    change (k (fade_init tbl sign d) <? 128) with true in Hl;
    cbv iota in Hl; [discriminate|].
  apply bind_inv in Hl. destruct Hl as (st1 & m2 & e3 & e4 & Hb & _ & ->).
  destruct (fade_body_events _ _ _ _ _ _ _ _ _ Hb)
    as (v & x & w & Hv & -> & _).
  change (Some (uint16 v) = Some (if sign then 0 else 127)). f_equal.
  unfold fade_value in Hv. cbn [fade_init k] in Hv.
  destruct (lookup tbl _); try discriminate.
  destruct sign; cbv zeta in Hv; apply Ok_pair_inv in Hv;
    destruct Hv as [<- _]; reflexivity.
Qed.

(** X8: whatever the table and the duration, a fade that returns has begun by
    writing the boundary it leaves (0 when brightening, 127 when dimming) and
    has never written the boundary it heads for (127, respectively 0). *)
Theorem fade_first_and_missing_level fuel tbl sign d m m' e :
  fade fuel tbl sign d m = Ok (tt, m', e) ->
  hd_error (pwm_writes e) = Some (if sign then 0 else 127) /\
  Forall (fun v => v <> (if sign then 127 else 0)) (pwm_writes e).
Proof.
  intros H. split; [|exact (fade_never_writes_boundary _ _ _ _ _ _ _ H)].
  unfold fade in H. apply bind_inv in H.
  destruct H as (st' & m1 & e1 & e2 & Hl & Hr & ->).
  injection Hr as _ <-. rewrite app_nil_r.
  exact (fade_loop_first_write _ _ _ _ _ _ _ _ _ Hl).
Qed.

Lemma fade_first_and_missing_level_witness :
  fade enough accelerationPoints false 130 (mkMachine 0 127)
  = Ok (tt, mkMachine 128 1, dimming130_events) /\
  hd_error (pwm_writes dimming130_events) = Some 127 /\
  Forall (fun v => v <> 0) (pwm_writes dimming130_events).
Proof.
  assert (H : fade enough accelerationPoints false 130 (mkMachine 0 127)
              = Ok (tt, mkMachine 128 1, dimming130_events))
    by (vm_compute; reflexivity).
  split; [exact H|].
  exact (fade_first_and_missing_level enough accelerationPoints false 130
           (mkMachine 0 127) (mkMachine 128 1) dimming130_events H).
Defined.

(** X9: whatever the table, a fade of duration [d] that returns sleeps once
    after each brightness write: [d / 64 + 1] ticks after each of the first
    [d mod 64] writes and [d / 64] ticks after every later one. *)
Theorem fade_sleep_schedule fuel tbl sign d m m' e :
  128 <= d <= 32767 ->
  fade fuel tbl sign d m = Ok (tt, m', e) ->
  length (sleeps e) = length (pwm_writes e) /\
  sleeps e
  = repeat (d / 64 + 1)
      (Nat.min (Z.to_nat (d mod 64)) (length (pwm_writes e)))
    ++ repeat (d / 64) (length (pwm_writes e) - Z.to_nat (d mod 64)).
Proof.
  intros Hd H. unfold fade in H. apply bind_inv in H.
  destruct H as (st' & m1 & e1 & e2 & Hl & Hr & ->).
  injection Hr as _ <-. rewrite app_nil_r.
  apply fade_loop_sleeps in Hl. cbn [fade_init remainder] in Hl.
  assert (Hq : Z.quot d 64 = d / 64) by (apply Z.quot_div_nonneg; lia).
  assert (Hm : Z.rem d 64 = d mod 64) by (apply Z.rem_mod_nonneg; lia).
  pose proof (Z.mod_pos_bound d 64 ltac:(lia)) as Hb.
  pose proof (Z.div_mod d 64 ltac:(lia)) as Hdm.
  rewrite Hm, uint8_small in Hl by lia.
  rewrite fade_delays_closed in Hl by lia. rewrite Hq in Hl.
  split; [|exact Hl].
  rewrite Hl at 1. rewrite length_app, !repeat_length. lia.
Qed.

Lemma fade_sleep_schedule_witness :
  128 <= 130 <= 32767 /\
  fade enough accelerationPoints false 130 (mkMachine 0 127)
  = Ok (tt, mkMachine 128 1, dimming130_events) /\
  length (sleeps dimming130_events) = length (pwm_writes dimming130_events) /\
  sleeps dimming130_events
  = repeat (130 / 64 + 1)
      (Nat.min (Z.to_nat (130 mod 64)) (length (pwm_writes dimming130_events)))
    ++ repeat (130 / 64)
         (length (pwm_writes dimming130_events) - Z.to_nat (130 mod 64)).
Proof.
  assert (H1 : 128 <= 130 <= 32767) by lia.
  assert (H2 : fade enough accelerationPoints false 130 (mkMachine 0 127)
               = Ok (tt, mkMachine 128 1, dimming130_events))
    by (vm_compute; reflexivity).
  split; [exact H1|]. split; [exact H2|].
  exact (fade_sleep_schedule enough accelerationPoints false 130
           (mkMachine 0 127) (mkMachine 128 1) dimming130_events H1 H2).
Defined.

(** ** The logical state between passes, and the endless loop *)

Lemma pass_loop_end_state fuel i p :
  lookup patterns i = Ok p -> Z.of_nat (length p) <= 256 ->
  forall rest pre n state m s' m' e,
    p = pre ++ rest -> In 0 rest ->
    pass_loop fuel n i (Z.of_nat (length pre)) state m = Ok (s', m', e) ->
    s' = end_state state rest.
Proof.
  intros Hp Hlen.
  induction rest as [|x rest IH]; intros pre n state m s' m' e Hsplit Hin H;
    [destruct Hin|].
  destruct n as [|n]; [discriminate|]. cbn [pass_loop end_state] in *.
  assert (Hx : lookup p (Z.of_nat (length pre)) = Ok x)
    by (rewrite Hsplit; apply lookup_app_here).
  apply bind_inv in H. destruct H as (c & m0 & e0 & e0' & Hr & H & _).
  rewrite (read_pattern_run i _ p x m Hp Hx) in Hr. injection Hr as <- <- _.
  destruct (x =? 0) eqn:E.
  - injection H as <- _ _. reflexivity.
  - apply bind_inv in H. destruct H as (raw & m1 & e1 & e1' & Hr & H & _).
    rewrite (read_pattern_run i _ p x m Hp Hx) in Hr.
    injection Hr as <- <- _.
    apply bind_inv in H. destruct H as (s1 & m2 & e2 & e3 & Hi & Hl & _).
    apply exec_instr_state in Hi. subst s1.
    assert (Hin' : In 0 rest) by (destruct Hin as [->|]; [discriminate|auto]).
    assert (Hj : uint8 (Z.of_nat (length pre) + 1)
                 = Z.of_nat (length (pre ++ [x]))).
    { rewrite length_app. cbn [length].
      rewrite Nat2Z.inj_add. apply uint8_small.
      rewrite Hsplit, length_app in Hlen. cbn [length] in Hlen.
      destruct rest; [destruct Hin'|]. cbn [length] in Hlen. lia. }
    rewrite Hj in Hl.
    apply (IH (pre ++ [x]) n (negb (x <? 0)) m2 s' m' e3);
      [rewrite <- app_assoc; exact Hsplit | exact Hin' | exact Hl].
Qed.

Lemma patterns_end_off p state : In p patterns -> end_state state p = false.
Proof.
  intros Hp. cbn [patterns In] in Hp.
  repeat (destruct Hp as [<- | Hp]; [destruct state; reflexivity|]).
  destruct Hp.
Qed.

(** X10: every pass over a pattern of the shipped library returns and leaves
    the logical state at the sign of the last instruction before the
    sentinel; every shipped pattern ends on a negative instruction, so
    whatever the state at its start, every pass ends in the state off. *)
Theorem pass_ends_off fuel i state m :
  (enough <= fuel)%nat -> 0 <= i < Z.of_nat (length patterns) ->
  exists p m' e,
    lookup patterns i = Ok p /\
    pass fuel i state m = Ok (end_state state p, m', e) /\
    end_state state p = false.
Proof.
  intros Hf Hi. destruct (lookup_in_range patterns i Hi) as (p & Hp).
  pose proof (lookup_In _ _ _ Hp) as Hin.
  destruct (patterns_well_formed p Hin) as [H0 Hlen].
  assert (Hn : (length p <= fuel)%nat) by (unfold enough in Hf; lia).
  destruct (pass_loop_run i p p Hf Hp Hlen [] fuel state m eq_refl H0 Hn)
    as (s' & m' & e & H & _).
  pose proof (pass_loop_end_state fuel i p Hp Hlen p [] fuel state m s' m' e
                eq_refl H0 H) as Hs.
  exists p, m', e. split; [exact Hp|]. rewrite <- Hs.
  split; [exact H|]. rewrite Hs. apply patterns_end_off, Hin.
Qed.

Lemma pass_ends_off_witness :
  (enough <= enough)%nat /\ 0 <= 0 < Z.of_nat (length patterns) /\
  exists p m' e,
    lookup patterns 0 = Ok p /\
    pass enough 0 true (mkMachine 7 3) = Ok (end_state true p, m', e) /\
    end_state true p = false.
Proof.
  assert (H1 : 0 <= 0 < Z.of_nat (length patterns)) by (cbn; lia).
  split; [apply le_n|]. split; [exact H1|].
  exact (pass_ends_off enough 0 true (mkMachine 7 3) (le_n enough) H1).
Defined.

Lemma next_i_in_range i :
  0 <= next_i i < Z.of_nat (length patterns).
Proof.
  unfold next_i. cbv zeta. pose proof (uint8_range (i + 1)) as Hr.
  destruct (uint8 (i + 1) <? Z.of_nat (length patterns)) eqn:E.
  - apply Z.ltb_lt in E. lia.
  - cbn. lia.
Qed.

Lemma main_step_total fuel c m :
  (enough <= fuel)%nat -> 0 <= fst c < Z.of_nat (length patterns) ->
  exists c' m' e,
    main_step fuel c m = Ok (c', m', e) /\
    0 <= fst c' < Z.of_nat (length patterns) /\ snd c' = false.
Proof.
  intros Hf Hi.
  destruct (lookup_in_range patterns (fst c) Hi) as (p & Hp).
  pose proof (lookup_In _ _ _ Hp) as Hin.
  destruct (patterns_well_formed p Hin) as [H0 Hlen].
  assert (Hn : (length p <= fuel)%nat) by (unfold enough in Hf; lia).
  destruct (pass_loop_run (fst c) p p Hf Hp Hlen [] fuel (snd c) m eq_refl
              H0 Hn) as (s1 & m1 & e1 & H1 & _).
  assert (Hs : s1 = false).
  { rewrite (pass_loop_end_state fuel (fst c) p Hp Hlen p [] fuel (snd c) m
               s1 m1 e1 eq_refl H0 H1).
    apply patterns_end_off, Hin. }
  unfold main_step, pass. rewrite (bind_run _ _ _ H1).
  rewrite (bind_run _ _ _ (read_ticks_run m1)).
  destruct (ticks m1 <? PATTERN_DURATION).
  - eexists _, _, _. split; [reflexivity|]. cbn [fst snd]. auto.
  - eexists _, _, _. split; [reflexivity|]. cbn [fst snd].
    split; [apply next_i_in_range | exact Hs].
Qed.

Lemma main_steps_total fuel n :
  (enough <= fuel)%nat ->
  forall c m,
    0 <= fst c < Z.of_nat (length patterns) -> snd c = false ->
    exists c' m' e,
      main_steps fuel n c m = Ok (c', m', e) /\
      0 <= fst c' < Z.of_nat (length patterns) /\ snd c' = false.
Proof.
  intros Hf. induction n as [|n IH]; intros c m Hi Hs; cbn [main_steps].
  - exists c, m, []. auto.
  - destruct (main_step_total fuel c m Hf Hi) as (c1 & m1 & e1 & H1 & Hi1 & Hs1).
    destruct (IH c1 m1 Hi1 Hs1) as (c2 & m2 & e2 & H2 & Hi2 & Hs2).
    exists c2, m2, (e1 ++ e2). rewrite (bind_run _ _ _ H1), H2. auto.
Qed.

(** X11: the interpreter never stops and never fails: started from reset on
    any machine, after any number of passes it has read no array out of
    bounds, every loop has ended, it is on a pattern of the library and its
    logical state at the pass boundary is off. *)
Theorem main_runs_for_ever fuel n m :
  (enough <= fuel)%nat ->
  exists c m' e,
    (c0 <- main_start ;; main_steps fuel n c0) m = Ok (c, m', e) /\
    0 <= fst c < Z.of_nat (length patterns) /\ snd c = false.
Proof.
  intros Hf.
  assert (Hi : 0 <= fst (0, false) < Z.of_nat (length patterns))
    by (cbn; lia).
  destruct (main_steps_total fuel n Hf (0, false) (mkMachine 0 (OCR0A m))
              Hi eq_refl) as (c & m' & e & H & Hc).
  exists c, m', e. split; [|exact Hc].
  assert (Hs : main_start m = Ok ((0, false), mkMachine 0 (OCR0A m), []))
    by reflexivity.
  rewrite (bind_run _ _ _ Hs), H. reflexivity.
Qed.

Lemma main_runs_for_ever_witness :
  (enough <= enough)%nat /\
  exists c m' e,
    (c0 <- main_start ;; main_steps enough 40 c0) (mkMachine 12345 0)
    = Ok (c, m', e) /\
    0 <= fst c < Z.of_nat (length patterns) /\ snd c = false.
Proof.
  split; [apply le_n|].
  apply (main_runs_for_ever enough 40 (mkMachine 12345 0)), le_n.
Defined.

(** ** The time a pass takes, on the shipped library *)

Lemma fade_shipped_sleeps fuel sign d m m' e :
  fade fuel accelerationPoints sign d m = Ok (tt, m', e) ->
  sleeps e = fade_delays d (uint8 (Z.rem d 64)) (length (levels sign)).
Proof.
  intros H.
  apply (fade_mono fuel (Nat.max fuel enough) accelerationPoints sign d
           (Nat.le_max_l fuel enough)) in H.
  destruct (fade_shipped sign d m (Nat.le_max_r fuel enough))
    as (m1 & e1 & H1 & _ & Hs & _).
  rewrite H1 in H. injection H as _ <-. exact Hs.
Qed.

Lemma exec_instr_sleeps fuel raw state m s' m' e :
  exec_instr fuel raw state m = Ok (s', m', e) ->
  sleeps e = instr_sleeps raw state.
Proof.
  unfold exec_instr, instr_sleeps. cbv zeta.
  destruct (Bool.eqb state (negb (raw <? 0))); intros H;
    apply bind_inv in H; destruct H as ([] & m1 & e1 & e2 & H & Hr & ->);
    injection Hr as _ _ <-; rewrite app_nil_r.
  - destruct (sleep_inv _ _ _ _ _ H) as (w & -> & _).
    destruct (views_of_ticks w) as (_ & V2 & _).
    match goal with
    | |- sleeps (EvSleep ?x :: _) = _ =>
        change (x :: sleeps (repeat EvTick w) = [x])
    end.
    rewrite V2. reflexivity.
  - destruct (_ <? 128).
    + injection H as _ <-. reflexivity.
    + exact (fade_shipped_sleeps _ _ _ _ _ _ H).
Qed.

Lemma pass_loop_sleeps fuel i p :
  lookup patterns i = Ok p -> Z.of_nat (length p) <= 256 ->
  forall rest pre n state m s' m' e,
    p = pre ++ rest -> In 0 rest ->
    pass_loop fuel n i (Z.of_nat (length pre)) state m = Ok (s', m', e) ->
    sleeps e = pass_sleeps state rest.
Proof.
  intros Hp Hlen.
  induction rest as [|x rest IH]; intros pre n state m s' m' e Hsplit Hin H;
    [destruct Hin|].
  destruct n as [|n]; [discriminate|]. cbn [pass_loop pass_sleeps] in *.
  assert (Hx : lookup p (Z.of_nat (length pre)) = Ok x)
    by (rewrite Hsplit; apply lookup_app_here).
  apply bind_inv in H. destruct H as (c & m0 & e0 & e0' & Hr & H & ->).
  rewrite (read_pattern_run i _ p x m Hp Hx) in Hr.
  injection Hr as <- <- <-.
  destruct (x =? 0) eqn:E.
  - injection H as _ _ <-. reflexivity.
  - apply bind_inv in H. destruct H as (raw & m1 & e1 & e1' & Hr & H & ->).
    rewrite (read_pattern_run i _ p x m Hp Hx) in Hr.
    injection Hr as <- <- <-.
    apply bind_inv in H. destruct H as (s1 & m2 & e2 & e3 & Hi & Hl & ->).
    pose proof (exec_instr_sleeps _ _ _ _ _ _ _ Hi) as Hs2.
    apply exec_instr_state in Hi. subst s1.
    assert (Hin' : In 0 rest) by (destruct Hin as [->|]; [discriminate|auto]).
    assert (Hj : uint8 (Z.of_nat (length pre) + 1)
                 = Z.of_nat (length (pre ++ [x]))).
    { rewrite length_app. cbn [length].
      rewrite Nat2Z.inj_add. apply uint8_small.
      rewrite Hsplit, length_app in Hlen. cbn [length] in Hlen.
      destruct rest; [destruct Hin'|]. cbn [length] in Hlen. lia. }
    rewrite Hj in Hl.
    apply (IH (pre ++ [x]) n (negb (x <? 0)) m2 s' m' e3) in Hl;
      [|rewrite <- app_assoc; exact Hsplit | exact Hin'].
    rewrite !sleeps_app, Hs2, Hl. reflexivity.
Qed.

Lemma patterns_ask_bound p state :
  In p patterns ->
  sum (map (fun n => Z.max n 1) (pass_sleeps state p)) <= 7669.
Proof.
  intros Hp. cbn [patterns In] in Hp.
  repeat (destruct Hp as [<- | Hp];
          [destruct state; apply Z.leb_le; vm_compute; reflexivity|]).
  destruct Hp.
Qed.

(** X6: a pass over a pattern of the shipped library begun with the counter
    below [PATTERN_DURATION], as every pass of the main loop is, returns; its
    [sleep] calls are those its instructions dictate, whatever the machine;
    they ask for at most 7669 ticks in all, so the counter does not wrap
    during the pass: exactly the ticks asked for fire (one for a [sleep] of
    0) and the counter ends that much further. *)
Theorem pass_takes_asked_ticks fuel i state m :
  (enough <= fuel)%nat -> 0 <= i < Z.of_nat (length patterns) ->
  0 <= ticks m < PATTERN_DURATION ->
  exists p s' m' e,
    lookup patterns i = Ok p /\
    pass fuel i state m = Ok (s', m', e) /\
    sleeps e = pass_sleeps state p /\
    asked_ticks e <= 7669 /\
    count_ticks e = asked_ticks e /\
    ticks m' = ticks m + asked_ticks e.
Proof.
  intros Hf Hi Ht. destruct (lookup_in_range patterns i Hi) as (p & Hp).
  pose proof (lookup_In _ _ _ Hp) as Hin.
  destruct (patterns_well_formed p Hin) as [H0 Hlen].
  assert (Hn : (length p <= fuel)%nat) by (unfold enough in Hf; lia).
  destruct (pass_loop_run i p p Hf Hp Hlen [] fuel state m eq_refl H0 Hn)
    as (s' & m' & e & H & _).
  pose proof (pass_loop_sleeps fuel i p Hp Hlen p [] fuel state m s' m' e
                eq_refl H0 H) as Hs.
  assert (Ha : asked_ticks e <= 7669).
  { unfold asked_ticks. rewrite Hs. apply patterns_ask_bound, Hin. }
  assert (K : ticks_as_asked m m' e).
  { exact (instr_pass ticks_as_asked ticks_as_asked_nil ticks_as_asked_app
             (instr_exec_instr ticks_as_asked ticks_as_asked_nil
                ticks_as_asked_app ticks_as_asked_sleep ticks_as_asked_pwm)
             ticks_as_asked_read fuel i state m s' m' e H). }
  unfold PATTERN_DURATION in Ht.
  destruct (K ltac:(lia) ltac:(lia)) as [K1 K2].
  exists p, s', m', e. repeat split; assumption.
Qed.

Lemma pass_takes_asked_ticks_witness :
  (enough <= enough)%nat /\ 0 <= 7 < Z.of_nat (length patterns) /\
  0 <= ticks (mkMachine 29999 1) < PATTERN_DURATION /\
  exists p s' m' e,
    lookup patterns 7 = Ok p /\
    pass enough 7 true (mkMachine 29999 1) = Ok (s', m', e) /\
    sleeps e = pass_sleeps true p /\
    asked_ticks e <= 7669 /\
    count_ticks e = asked_ticks e /\
    ticks m' = ticks (mkMachine 29999 1) + asked_ticks e.
Proof.
  assert (H1 : 0 <= 7 < Z.of_nat (length patterns)) by (cbn; lia).
  assert (H2 : 0 <= ticks (mkMachine 29999 1) < PATTERN_DURATION)
    by (cbn; unfold PATTERN_DURATION; lia).
  split; [apply le_n|]. split; [exact H1|]. split; [exact H2|].
  exact (pass_takes_asked_ticks enough 7 true (mkMachine 29999 1)
           (le_n enough) H1 H2).
Defined.
